(** * Aquadopp DW driver (mi.instrument.nortek.aquadopp.ooicore.driver)

    A shallow embedding of the Aquadopp DW instrument driver: the velocity
    data particle, the chunker sieve entry point, the set command handler
    and the parameter dictionary the protocol builds.  Python 2 byte strings
    are lists of bytes, Python ints are [Z], dictionaries are [gmap]s keyed
    by strings, and a raised exception is the [Raise] branch of [result].
    The handler threads the protocol state explicitly; of the debug log only
    the lines of the set handler are kept, the particle being a pure
    function of the frame. *)

From Stdlib Require Import ZArith Lia.
From Stdlib.Strings Require Byte.
From stdpp Require Import base option list gmap strings fin_maps.
From Equations Require Import Equations.

Local Open Scope Z_scope.

(** ** Python 2 values and builtins used by the driver *)

Module Py.

Abbreviation byte := Byte.byte.

(** A Python 2 [str] is a byte string. *)
Definition bytes : Type := list byte.

#[global] Instance byte_eq_dec : EqDecision byte.
Proof.
  intros a b. destruct (decide (Byte.to_N a = Byte.to_N b)) as [E | E].
  - left. apply (f_equal Byte.of_N) in E.
    rewrite !Byte.of_to_N in E. congruence.
  - right. congruence.
Defined.

(** The exceptions that the driver raises or lets through.  The argument of
    an exception is its message, or the name of the parameter it is about;
    a SampleException also carries the positional arguments that follow its
    message. *)
Inductive exn : Type :=
| SampleException (msg : string) (args : list bytes)
| InstrumentParameterException (msg : string)
| InstrumentTimeoutException (msg : string)
| InstrumentProtocolException (msg : string)
| DecodeError (msg : string)
| IndexError
| TypeError
| ValueError.

Inductive result (A : Type) : Type :=
| OK (a : A)
| Raise (e : exn).
Arguments OK {A} a.
Arguments Raise {A} e.

#[global] Instance result_ret : MRet result := @OK.
#[global] Instance result_bind : MBind result :=
  fun A B f m => match m with OK a => f a | Raise e => Raise e end.
#[global] Instance result_fmap : FMap result :=
  fun A B f m => match m with OK a => OK (f a) | Raise e => Raise e end.

Definition is_OK {A} (r : result A) : bool :=
  match r with OK _ => true | Raise _ => false end.

(** The values that parameters, particle fields and handler arguments carry.
    [VTimestamp] tags the six clock bytes of the instrument. *)
Inductive value : Type :=
| VNone
| VBool (b : bool)
| VInt (z : Z)
| VStr (s : bytes)
| VTimestamp (raw : bytes).

(** [ord(c)] of a one-character string. *)
Definition ord (c : byte) : Z := Z.of_N (Byte.to_N c).

(** [chr(i)]: raises ValueError outside [range(256)]. *)
Definition chr (i : Z) : result byte :=
  if decide (0 <= i < 256) then
    match Byte.of_N (Z.to_N i) with
    | Some c => OK c
    | None => Raise ValueError
    end
  else Raise ValueError.

(** One lowercase hexadecimal digit, as [binascii.hexlify] writes it. *)
Definition hex_digit (n : Z) : byte :=
  match chr (if decide (n < 10) then 48 + n else 87 + n) with
  | OK c => c
  | Raise _ => Byte.x30
  end.

(** [s.encode('hex')]: two lowercase digits per byte. *)
Fixpoint encode_hex (s : bytes) : bytes :=
  match s with
  | [] => []
  | c :: s' => hex_digit (ord c / 16) :: hex_digit (ord c mod 16) :: encode_hex s'
  end.

(** The value of a hexadecimal digit; both cases are accepted. *)
Definition unhex_digit (c : byte) : option Z :=
  let n := ord c in
  if decide (48 <= n <= 57) then Some (n - 48)
  else if decide (97 <= n <= 102) then Some (n - 87)
  else if decide (65 <= n <= 70) then Some (n - 55)
  else None.

(** [s.decode('hex')]: raises TypeError on an odd length or on a character
    that is no hexadecimal digit. *)
Fixpoint decode_hex (s : bytes) : result bytes :=
  match s with
  | [] => OK []
  | [_] => Raise TypeError
  | h :: l :: s' =>
      match unhex_digit h, unhex_digit l with
      | Some a, Some b =>
          c ← chr (16 * a + b);
          rest ← decode_hex s';
          OK (c :: rest)
      | _, _ => Raise TypeError
      end
  end.

End Py.
Import Py.

(** ** Regular expressions of the driver

    Every pattern of the driver is compiled with [re.DOTALL] and is a literal
    prefix followed by groups of fixed width, so [.{n}] takes any [n] bytes.
    [re.match] anchors at the start only: what follows the last group is
    not looked at. *)

Module Regex.

(** The groups [(.{w1})(.{w2})...] matched at the head of [s]. *)
Fixpoint groups (widths : list nat) (s : bytes) : option (list bytes) :=
  match widths with
  | [] => Some []
  | w :: ws =>
      if decide (w ≤ length s)%nat then
        gs ← groups ws (drop w s); Some (take w s :: gs)
      else None
  end.

(** [re.compile('^' + lit + groups, re.DOTALL).match(s)]. *)
Definition match_ (lit : bytes) (widths : list nat) (s : bytes)
  : option (list bytes) :=
  if decide (take (length lit) s = lit) then groups widths (drop (length lit) s)
  else None.

(** [re.compile(r'^.{off}(.{w}).*', re.DOTALL).match(s).group(1)]. *)
Definition locate (off w : nat) (s : bytes) : option bytes :=
  match match_ [] [off; w] s with
  | Some [_; g] => Some g
  | _ => None
  end.

End Regex.

(** ** Primitives of the Nortek instrument family

    The conversions of [NortekProtocolParameterDict] that this driver calls.
    Their code belongs to mi.instrument.nortek.driver; the driver is modelled
    over any implementation of them. *)

Class NortekProtocolParameterDict : Type := {
  convert_word_to_int : bytes -> result Z;
  convert_double_word_to_int : bytes -> result Z;
  word_to_string : value -> result bytes;
  double_word_to_string : value -> result bytes;
  convert_words_to_datetime : bytes -> result value;
  convert_time : bytes -> result value
}.

(** ** Constants and the velocity data particle *)

Definition VELOCITY_DATA_LEN : nat := 42.
Definition VELOCITY_HEADER_DATA_SYNC_BYTES : bytes := [Byte.xa5; Byte.x01].

(** A sample structure is a pair of sync bytes and a structure length. *)
Definition sample_structure : Type := bytes * nat.

Definition VECTOR_SAMPLE_STRUCTURES : list sample_structure :=
  [(VELOCITY_HEADER_DATA_SYNC_BYTES, VELOCITY_DATA_LEN)].

(** The widths of the nineteen groups of VELOCITY_DATA_PATTERN. *)
Definition VELOCITY_DATA_GROUPS : list nat :=
  [6; 2; 2; 2; 2; 2; 2; 2; 1; 1; 2; 2; 2; 2; 2; 1; 1; 1; 3]%nat.

Definition VELOCITY_DATA_REGEX (raw_data : bytes) : option (list bytes) :=
  Regex.match_ VELOCITY_HEADER_DATA_SYNC_BYTES VELOCITY_DATA_GROUPS raw_data.

Module AquadoppDwVelocityDataParticleKey.
Definition TIMESTAMP : string := "date_time_string".
Definition ERROR : string := "error_code".
Definition ANALOG1 : string := "analog1".
Definition BATTERY_VOLTAGE : string := "battery_voltage".
Definition SOUND_SPEED_ANALOG2 : string := "sound_speed_analog2".
Definition HEADING : string := "heading".
Definition PITCH : string := "pitch".
Definition ROLL : string := "roll".
Definition PRESSURE : string := "pressure".
Definition STATUS : string := "status".
Definition TEMPERATURE : string := "temperature".
Definition VELOCITY_BEAM1 : string := "velocity_beam1".
Definition VELOCITY_BEAM2 : string := "velocity_beam2".
Definition VELOCITY_BEAM3 : string := "velocity_beam3".
Definition AMPLITUDE_BEAM1 : string := "amplitude_beam1".
Definition AMPLITUDE_BEAM2 : string := "amplitude_beam2".
Definition AMPLITUDE_BEAM3 : string := "amplitude_beam3".
End AquadoppDwVelocityDataParticleKey.

(** A parsed particle: the list of its [{value_id: ..., value: ...}] entries,
    in the order the driver builds them. *)
Definition particle : Type := list (string * value).

(** The value stored under [key], as a consumer of the particle reads it. *)
Fixpoint particle_value (key : string) (p : particle) : option value :=
  match p with
  | [] => None
  | (k, v) :: p' => if decide (k = key) then Some v else particle_value key p'
  end.

(** [ord(match.group(n))] for a group of one byte. *)
Definition ord_group (g : bytes) : result Z :=
  match g with
  | [c] => OK (ord c)
  | _ => Raise TypeError
  end.

Module AquadoppDwVelocityDataParticle.
Section Particle.
Context `{!NortekProtocolParameterDict}.
Import AquadoppDwVelocityDataParticleKey.

Definition _build_particle (match_ : list bytes) : result particle :=
  match match_ with
  | [g1; g2; g3; g4; g5; g6; g7; g8; g9; g10; g11; g12; g13; g14; g15;
     g16; g17; g18; _] =>
      timestamp ← convert_time g1;
      error ← convert_word_to_int g2;
      analog1 ← convert_word_to_int g3;
      battery_voltage ← convert_word_to_int g4;
      sound_speed ← convert_word_to_int g5;
      heading ← convert_word_to_int g6;
      pitch ← convert_word_to_int g7;
      roll ← convert_word_to_int g8;
      pressure_msb ← ord_group g9;
      let pressure := pressure_msb * 65536 in
      status ← ord_group g10;
      pressure_lsw ← convert_word_to_int g11;
      let pressure := pressure + pressure_lsw in
      temperature ← convert_word_to_int g12;
      velocity_beam1 ← convert_word_to_int g13;
      velocity_beam2 ← convert_word_to_int g14;
      velocity_beam3 ← convert_word_to_int g15;
      amplitude_beam1 ← ord_group g16;
      amplitude_beam2 ← ord_group g17;
      amplitude_beam3 ← ord_group g18;
      OK [(TIMESTAMP, timestamp);
          (ERROR, VInt error);
          (ANALOG1, VInt analog1);
          (BATTERY_VOLTAGE, VInt battery_voltage);
          (SOUND_SPEED_ANALOG2, VInt sound_speed);
          (HEADING, VInt heading);
          (PITCH, VInt pitch);
          (ROLL, VInt roll);
          (STATUS, VInt status);
          (PRESSURE, VInt pressure);
          (TEMPERATURE, VInt temperature);
          (VELOCITY_BEAM1, VInt velocity_beam1);
          (VELOCITY_BEAM2, VInt velocity_beam2);
          (VELOCITY_BEAM3, VInt velocity_beam3);
          (AMPLITUDE_BEAM1, VInt amplitude_beam1);
          (AMPLITUDE_BEAM2, VInt amplitude_beam2);
          (AMPLITUDE_BEAM3, VInt amplitude_beam3)]
  | _ => Raise IndexError
  end.

Definition no_regex_match : string :=
  "AquadoppDwVelocityDataParticle: No regex match of parsed sample data: [%r]".

Definition _build_parsed_values (raw_data : bytes) : result particle :=
  match VELOCITY_DATA_REGEX raw_data with
  | None => Raise (SampleException no_regex_match [raw_data])
  | Some match_ => _build_particle match_
  end.

End Particle.
End AquadoppDwVelocityDataParticle.

(** ** Protocol state and the superclass interface *)

(** The connection states of the protocol state machine. *)
Inductive ConnectionState : Type :=
| UNCONFIGURED
| COMMAND
| AUTOSAMPLE
| DIRECT_ACCESS
| LOST_CONNECTION.

#[global] Instance ConnectionState_eq_dec : EqDecision ConnectionState.
Proof. solve_decision. Defined.

(** What a protocol instance owns: its connection state, the shadow values
    of the parameters, the writes sent to the instrument (parameter name and
    wire bytes, oldest first) and the debug log. *)
Record protocol_state : Type := {
  conn_state : ConnectionState;
  shadow : gmap string value;
  wire : list (string * bytes);
  debug_log : list string
}.

(** A positional argument of a handler: a dict of parameter values, or any
    other value. *)
Inductive pyobj : Type :=
| PDict (d : gmap string value)
| PVal (v : value).

(** What a sieve reports for a buffer: the frames found (structure, frame
    bytes, start offset), the number of bytes discarded as noise, and the
    bytes that stay buffered. *)
Record sieve_result : Type := {
  frames : list (sample_structure * bytes * nat);
  discarded : nat;
  rest : bytes
}.

(** The methods of the superclass [NortekInstrumentProtocol] that this
    driver calls.  Their code belongs to mi.instrument.nortek.driver. *)
Class NortekInstrumentProtocol : Type := {
  base_chunker_sieve_function : bytes -> list sample_structure -> sieve_result;
  _set_params :
    gmap string value -> pyobj -> protocol_state -> protocol_state * result unit
}.

(** The names of the parameters ([Parameter] in the driver).  The
    enumeration is declared in mi.instrument.nortek.driver; each member
    stands for a string of its own, taken here to be the member's name. *)
Module Param.
Definition TRANSMIT_PULSE_LENGTH : string := "TRANSMIT_PULSE_LENGTH".
Definition BLANKING_DISTANCE : string := "BLANKING_DISTANCE".
Definition RECEIVE_LENGTH : string := "RECEIVE_LENGTH".
Definition TIME_BETWEEN_PINGS : string := "TIME_BETWEEN_PINGS".
Definition TIME_BETWEEN_BURST_SEQUENCES : string := "TIME_BETWEEN_BURST_SEQUENCES".
Definition NUMBER_PINGS : string := "NUMBER_PINGS".
Definition AVG_INTERVAL : string := "AVG_INTERVAL".
Definition POWER_CONTROL_REGISTER : string := "POWER_CONTROL_REGISTER".
Definition COMPASS_UPDATE_RATE : string := "COMPASS_UPDATE_RATE".
Definition BIN_LENGTH : string := "BIN_LENGTH".
Definition MEASUREMENT_INTERVAL : string := "MEASUREMENT_INTERVAL".
Definition WRAP_MODE : string := "WRAP_MODE".
Definition CLOCK_DEPLOY : string := "CLOCK_DEPLOY".
Definition ANALOG_INPUT_ADDR : string := "ANALOG_INPUT_ADDR".
Definition SW_VERSION : string := "SW_VERSION".
Definition WAVE_MEASUREMENT_MODE : string := "WAVE_MEASUREMENT_MODE".
Definition DYN_PERCENTAGE_POSITION : string := "DYN_PERCENTAGE_POSITION".
Definition WAVE_TRANSMIT_PULSE : string := "WAVE_TRANSMIT_PULSE".
Definition WAVE_BLANKING_DISTANCE : string := "WAVE_BLANKING_DISTANCE".
Definition WAVE_CELL_SIZE : string := "WAVE_CELL_SIZE".
Definition NUMBER_DIAG_SAMPLES : string := "NUMBER_DIAG_SAMPLES".
Definition NUMBER_SAMPLES_PER_BURST : string := "NUMBER_SAMPLES_PER_BURST".
Definition ANALOG_OUTPUT_SCALE : string := "ANALOG_OUTPUT_SCALE".
Definition USER_2_SPARE : string := "USER_2_SPARE".
Definition DIAGNOSTIC_INTERVAL : string := "DIAGNOSTIC_INTERVAL".
Definition ADJUSTMENT_SOUND_SPEED : string := "ADJUSTMENT_SOUND_SPEED".
Definition NUMBER_SAMPLES_DIAGNOSTIC : string := "NUMBER_SAMPLES_DIAGNOSTIC".
End Param.

Inductive ParameterDictVisibility : Type :=
| READ_ONLY
| READ_WRITE
| IMMUTABLE.

#[global] Instance ParameterDictVisibility_eq_dec : EqDecision ParameterDictVisibility.
Proof. solve_decision. Defined.

Inductive ParameterDictType : Type := INT | STRING.

Inductive ParameterUnits : Type :=
| CENTIMETERS
| HERTZ
| SECONDS
| MINUTE_INTERVAL
| METERS_PER_SECOND.

(** One entry of the parameter dictionary, as [NortekParameterDictVal] is
    constructed: the pattern [r'^.{off}(.{w}).*'] is kept as [(off, w)],
    [f_getval] receives [match.group(1)], and [f_format] turns a value into
    the bytes written to the instrument. *)
Record NortekParameterDictVal : Type := {
  name : string;
  pattern : nat * nat;
  f_getval : bytes -> result value;
  f_format : value -> result bytes;
  type : ParameterDictType;
  visibility : ParameterDictVisibility;
  display_name : string;
  default_value : option value;
  units : option ParameterUnits;
  startup_param : bool;
  direct_access : bool
}.

(** ** The protocol *)

Module Protocol.
Section Protocol.
Context `{!NortekProtocolParameterDict} `{!NortekInstrumentProtocol}.

(** The [add_structs] argument is not used: the superclass sieve is run
    with the velocity structure alone. *)
Definition chunker_sieve_function
  (raw_data : bytes) (add_structs : list sample_structure) : sieve_result :=
  base_chunker_sieve_function raw_data VECTOR_SAMPLE_STRUCTURES.

Definition log_debug (msg : string) (st : protocol_state) : protocol_state :=
  {| conn_state := conn_state st; shadow := shadow st; wire := wire st;
     debug_log := debug_log st ++ [msg] |}.

(** The body of the translation loop for one item of the dict: every
    branch logs, none changes the value. *)
Definition translate_item (st : protocol_state) (item : string * value)
  : protocol_state :=
  let name := item.1 in
  if decide (name = Param.TRANSMIT_PULSE_LENGTH) then
    log_debug ("would need to translate " +:+ name) st
  else if decide (name = Param.BLANKING_DISTANCE) then
    log_debug ("only translate if Aquadopp " +:+ name) st
  else if decide (name = Param.RECEIVE_LENGTH) then
    log_debug ("would need to translate " +:+ name) st
  else if decide (name = Param.TIME_BETWEEN_PINGS) then
    log_debug ("would need to translate " +:+ name) st
  else if decide (name = Param.DIAGNOSTIC_INTERVAL) then
    log_debug ("only translate if Aquadopp " +:+ name) st
  else if decide (name = Param.ADJUSTMENT_SOUND_SPEED) then
    log_debug ("would need to translate " +:+ name) st
  else st.

Definition requires_dict : string :=
  "_handler_command_set Set command requires a parameter dict.".
Definition not_a_dict : string := "Set parameters not a dict.".

(** [_handler_command_set] on its positional arguments: the result is the pair
    [(next_state, result)]. *)
Definition _handler_command_set (args : list pyobj) (st : protocol_state)
  : protocol_state * result (value * value) :=
  let st := log_debug "%% IN CHILD _handler_command_set" st in
  match args !! 0%nat with
  | None => (st, Raise (InstrumentParameterException requires_dict))
  | Some params =>
      let startup :=
        match args !! 1%nat with
        | Some startup => startup
        | None => PVal (VBool false)
        end in
      match params with
      | PVal _ => (st, Raise (InstrumentParameterException not_a_dict))
      | PDict params =>
          let st := foldl translate_item st (map_to_list params) in
          let '(st, r) := _set_params params startup st in
          (st, _ ← r; OK (VNone, VNone))
      end
  end.

Definition _helper_get_data_key : bytes := VELOCITY_HEADER_DATA_SYNC_BYTES.

(** A parameter of one 16-bit word at offset [off]. *)
Definition word_parameter (name : string) (off : nat)
  (type : ParameterDictType) (visibility : ParameterDictVisibility)
  (display_name : string) (default_value : Z) (units : option ParameterUnits)
  : NortekParameterDictVal :=
  {| name := name;
     pattern := (off, 2%nat);
     f_getval := fun group1 => VInt <$> convert_word_to_int group1;
     f_format := word_to_string;
     type := type;
     visibility := visibility;
     display_name := display_name;
     default_value := Some (VInt default_value);
     units := units;
     startup_param := true;
     direct_access := true |}.

(** The ASCII string '000000'. *)
Definition six_zeros : bytes := replicate 6 Byte.x30.

(** The descriptors that [_build_param_dict] adds, in the order of the
    [add_parameter] calls.  The descriptors the superclass method adds
    before them are not part of this driver's file.  An encoder gives the
    bytes to write: [lambda string: string] of CLOCK_DEPLOY returns a string
    as it is; a value that is not a string it would return as it is too,
    which is no string of bytes, and that case stands as TypeError here. *)
Definition _build_param_dict : list NortekParameterDictVal :=
  [ word_parameter Param.TRANSMIT_PULSE_LENGTH 4 INT IMMUTABLE
      "transmit pulse length" 125 (Some CENTIMETERS);
    word_parameter Param.BLANKING_DISTANCE 6 INT READ_WRITE
      "blanking distance" 49 (Some CENTIMETERS);
    word_parameter Param.RECEIVE_LENGTH 8 INT IMMUTABLE
      "receive length" 32 (Some CENTIMETERS);
    word_parameter Param.TIME_BETWEEN_PINGS 10 INT IMMUTABLE
      "time between pings" 437 (Some CENTIMETERS);
    word_parameter Param.TIME_BETWEEN_BURST_SEQUENCES 12 INT IMMUTABLE
      "time between burst sequences" 512 None;
    word_parameter Param.NUMBER_PINGS 14 INT IMMUTABLE
      "number pings" 1 (Some HERTZ);
    word_parameter Param.AVG_INTERVAL 16 INT READ_WRITE
      "avg interval" 1 (Some SECONDS);
    word_parameter Param.POWER_CONTROL_REGISTER 22 INT IMMUTABLE
      "power control register" 0 None;
    word_parameter Param.COMPASS_UPDATE_RATE 30 INT READ_WRITE
      "compass update rate" 1 (Some SECONDS);
    word_parameter Param.BIN_LENGTH 36 INT IMMUTABLE
      "bin length" 7 (Some SECONDS);
    word_parameter Param.MEASUREMENT_INTERVAL 38 INT READ_WRITE
      "measurement interval" 1 (Some SECONDS);
    word_parameter Param.WRAP_MODE 46 INT IMMUTABLE
      "wrap mode" 0 None;
    {| name := Param.CLOCK_DEPLOY;
       pattern := (48, 6)%nat;
       f_getval := fun group1 => convert_words_to_datetime group1;
       f_format := fun string =>
         match string with VStr s => OK s | _ => Raise TypeError end;
       type := STRING;
       visibility := IMMUTABLE;
       display_name := "clock deploy";
       default_value := Some (VStr six_zeros);
       units := None;
       startup_param := true;
       direct_access := true |};
    word_parameter Param.ANALOG_INPUT_ADDR 70 STRING IMMUTABLE
      "analog input addr" 0 None;
    word_parameter Param.SW_VERSION 72 STRING IMMUTABLE
      "sw version" 13902 None;
    word_parameter Param.WAVE_MEASUREMENT_MODE 436 STRING IMMUTABLE
      "wave measurement mode" 0 None;
    word_parameter Param.DYN_PERCENTAGE_POSITION 438 INT IMMUTABLE
      "dyn percentage position" 0 None;
    word_parameter Param.WAVE_TRANSMIT_PULSE 440 INT IMMUTABLE
      "wave transmit pulse" 0 None;
    word_parameter Param.WAVE_BLANKING_DISTANCE 442 INT IMMUTABLE
      "wave blanking distance" 0 None;
    word_parameter Param.WAVE_CELL_SIZE 444 INT IMMUTABLE
      "wave cell size" 0 None;
    word_parameter Param.NUMBER_DIAG_SAMPLES 446 INT IMMUTABLE
      "number diag samples" 0 None;
    word_parameter Param.NUMBER_SAMPLES_PER_BURST 452 INT IMMUTABLE
      "number of samples per burst" 0 None;
    word_parameter Param.ANALOG_OUTPUT_SCALE 456 INT IMMUTABLE
      "analog output scale" 0 None;
    {| name := Param.USER_2_SPARE;
       pattern := (454, 2)%nat;
       f_getval := fun group1 => OK (VStr (encode_hex group1));
       f_format := fun string =>
         match string with VStr s => decode_hex s | _ => Raise TypeError end;
       type := STRING;
       visibility := READ_ONLY;
       display_name := "user 2 spare";
       default_value := None;
       units := None;
       startup_param := false;
       direct_access := false |};
    {| name := Param.DIAGNOSTIC_INTERVAL;
       pattern := (54, 4)%nat;
       f_getval := fun group1 => VInt <$> convert_double_word_to_int group1;
       f_format := double_word_to_string;
       type := INT;
       visibility := IMMUTABLE;
       display_name := "diagnostic interval";
       default_value := Some (VInt 11250);
       units := Some MINUTE_INTERVAL;
       startup_param := true;
       direct_access := true |};
    word_parameter Param.ADJUSTMENT_SOUND_SPEED 60 INT IMMUTABLE
      "adjustment sound speed" 1525 (Some METERS_PER_SECOND);
    word_parameter Param.NUMBER_SAMPLES_DIAGNOSTIC 62 INT IMMUTABLE
      "number samples diagnostic" 20 None ].

End Protocol.
End Protocol.

(** ** The Nortek base driver and the core chunker

    mi.instrument.nortek.driver and mi.core are not part of this driver's
    file.  What the driver needs of them is defined in this module, each
    definition following the words of the specification. *)

Module Nortek.

(** *** Conversion primitives *)

Definition invalid_word : string := "Invalid number of bytes in word input".

(** Modelled from the spec: NortekProtocolParameterDict.convert_word_to_int
    is missing from src/; the spec names it the big-endian word-to-int
    primitive over a 2-byte group. *)
Definition convert_word_to_int (word : bytes) : result Z :=
  match word with
  | [hi; lo] => OK (ord hi * 256 + ord lo)
  | _ => Raise (SampleException invalid_word [])
  end.

(** Modelled from the spec: NortekProtocolParameterDict.word_to_string is
    missing from src/; the spec makes every encoder the inverse of its
    decoder, and rejects a value outside the declared domain. *)
Definition word_to_string (v : value) : result bytes :=
  match v with
  | VInt z =>
      if decide (0 <= z < 65536) then
        hi ← chr (z / 256); lo ← chr (z mod 256); OK [hi; lo]
      else Raise ValueError
  | _ => Raise TypeError
  end.

(** Modelled from the spec: NortekProtocolParameterDict.convert_double_word_to_int
    is missing from src/; the big-endian reading of a 4-byte group. *)
Definition convert_double_word_to_int (dword : bytes) : result Z :=
  match dword with
  | [b3; b2; b1; b0] =>
      OK (((ord b3 * 256 + ord b2) * 256 + ord b1) * 256 + ord b0)
  | _ => Raise (SampleException invalid_word [])
  end.

(** Modelled from the spec: NortekProtocolParameterDict.double_word_to_string
    is missing from src/; the inverse of the 4-byte reading. *)
Definition double_word_to_string (v : value) : result bytes :=
  match v with
  | VInt z =>
      if decide (0 <= z < 4294967296) then
        b3 ← chr (z / 16777216);
        b2 ← chr (z / 65536 mod 256);
        b1 ← chr (z / 256 mod 256);
        b0 ← chr (z mod 256);
        OK [b3; b2; b1; b0]
      else Raise ValueError
  | _ => Raise TypeError
  end.

(** Modelled from the spec: NortekProtocolParameterDict.convert_words_to_datetime
    is missing from src/; the spec only says that six clock bytes become a
    timestamp value, so the bytes are kept under the timestamp tag. *)
Definition convert_words_to_datetime (words : bytes) : result value :=
  if decide (length words = 6%nat) then OK (VTimestamp words)
  else Raise (SampleException invalid_word []).

(** Modelled from the spec: NortekProtocolParameterDict.convert_time is
    missing from src/; the instrument-epoch timestamp conversion of the six
    clock bytes of a sample, kept under the timestamp tag. *)
Definition convert_time (response : bytes) : result value :=
  OK (VTimestamp response).

#[global] Instance primitives : NortekProtocolParameterDict :=
  Build_NortekProtocolParameterDict
    convert_word_to_int convert_double_word_to_int
    word_to_string double_word_to_string
    convert_words_to_datetime convert_time.

(** *** The frame sieve *)

(** The first declared structure whose sync bytes stand at the head of
    [buf]: declaration order breaks ties. *)
Fixpoint first_match (structs : list sample_structure) (buf : bytes)
  : option sample_structure :=
  match structs with
  | [] => None
  | s :: structs' =>
      if decide (s.1 `prefix_of` buf) then Some s else first_match structs' buf
  end.

(** Whether [buf], to its end, is the beginning of some declared sync
    pattern: more data could complete a signature that starts here. *)
Definition may_start (structs : list sample_structure) (buf : bytes) : bool :=
  existsb (fun s : sample_structure => bool_decide (buf `prefix_of` s.1)) structs.

Definition wait (buf : bytes) : sieve_result :=
  {| frames := []; discarded := 0%nat; rest := buf |}.

Definition emit (frame : sample_structure * bytes * nat) (r : sieve_result)
  : sieve_result :=
  {| frames := frame :: frames r; discarded := discarded r; rest := rest r |}.

Definition discard (r : sieve_result) : sieve_result :=
  {| frames := frames r; discarded := S (discarded r); rest := rest r |}.

(** Modelled from the spec: NortekInstrumentProtocol.chunker_sieve_function
    is missing from src/; the scan of section 4.2.  From the cursor, the
    earliest declared signature is looked for; a signature whose frame is
    not yet complete stops the scan; a complete frame is reported with the
    offset at which it starts and the scan goes on behind it; a byte at
    which no signature starts or could start is discarded. *)
Equations? scan (structs : list sample_structure) (cursor : nat) (buf : bytes)
  : sieve_result by wf (length buf) lt :=
  scan structs cursor [] := wait [];
  scan structs cursor (b :: buf') with first_match structs (b :: buf') => {
    | Some s with decide (0 < s.2 ≤ length (b :: buf'))%nat => {
      | left _ :=
          emit (s, take s.2 (b :: buf'), cursor)
               (scan structs (cursor + s.2) (drop s.2 (b :: buf')))
      | right _ := wait (b :: buf') };
    | None with may_start structs (b :: buf') => {
      | true := wait (b :: buf')
      | false := discard (scan structs (S cursor) buf') } }.
Proof.
  all: rewrite ?length_drop; simpl in *; lia.
Qed.

Definition chunker_sieve_function
  (raw_data : bytes) (structs : list sample_structure) : sieve_result :=
  scan structs 0 raw_data.

(** *** The chunker *)

(** Modelled from the spec: StringChunker (mi.core.instrument.chunker) is
    missing from src/; [feed] of section 4.2 appends the data to the stream
    buffer and runs the sieve function the chunker was built with, which
    receives the buffer alone.  The bytes the sieve leaves are the new
    buffer. *)
Definition feed (sieve : bytes -> list sample_structure -> sieve_result)
  (buffer data : bytes) : sieve_result :=
  sieve (buffer ++ data) [].

(** The frames of a result, without their offsets. *)
Definition frames_of (r : sieve_result) : list (sample_structure * bytes) :=
  fst <$> frames r.

(** Feeding the chunks one call after the other, from [buffer]: the frames
    each call reports, and the buffer left at the end. *)
Fixpoint feed_all (sieve : bytes -> list sample_structure -> sieve_result)
  (buffer : bytes) (chunks : list bytes)
  : list (list (sample_structure * bytes)) * bytes :=
  match chunks with
  | [] => ([], buffer)
  | data :: chunks' =>
      let r := feed sieve buffer data in
      let '(reported, buffer') := feed_all sieve (rest r) chunks' in
      (frames_of r :: reported, buffer')
  end.

(** *** The parameter dictionary and the set command *)

Section ParamDict.
Context (dict : list NortekParameterDictVal).

Definition with_shadow (sh : gmap string value) (st : protocol_state)
  : protocol_state :=
  {| conn_state := conn_state st; shadow := sh; wire := wire st;
     debug_log := debug_log st |}.

Definition with_write (w : string * bytes) (st : protocol_state)
  : protocol_state :=
  {| conn_state := conn_state st; shadow := shadow st;
     wire := wire st ++ [w]; debug_log := debug_log st |}.

(** Modelled from the spec: ProtocolParameterDict.get is missing from
    src/; [get] of section 4.1 returns the shadow value and never touches
    the wire. *)
Definition get (name : string) (st : protocol_state) : option value :=
  shadow st !! name.

(** The descriptors of [ds] decoded from [raw], each stored under its
    name; the first descriptor whose locator does not match fails. *)
Fixpoint decode_all (ds : list NortekParameterDictVal) (raw : bytes)
  (sh : gmap string value) : result (gmap string value * list string) :=
  match ds with
  | [] => OK (sh, [])
  | d :: ds' =>
      match Regex.locate (pattern d).1 (pattern d).2 raw with
      | None => Raise (DecodeError (name d))
      | Some group1 =>
          v ← f_getval d group1;
          '(sh', names) ← decode_all ds' raw (<[name d := v]> sh);
          OK (sh', name d :: names)
      end
  end.

(** Modelled from the spec: ProtocolParameterDict.update is missing from
    src/; [decode_from] of section 4.1 scans the block against every
    registered locator, stores each decoded value and returns the names
    updated; a block in which a descriptor cannot be located fails with
    DecodeError naming the first such descriptor. *)
Definition decode_from (raw_block : bytes) (st : protocol_state)
  : protocol_state * result (list string) :=
  match decode_all dict raw_block (shadow st) with
  | OK (sh, names) => (with_shadow sh st, OK names)
  | Raise e => (st, Raise e)
  end.

(** The device: whether it acknowledges, within the bound, the last write
    of the wire history it is shown. *)
Context (device_ack : list (string * bytes) -> bool).

(** Modelled from the spec: the validation of [set] in section 4.1 is
    missing from src/.  A read-only parameter, an immutable-after-init
    parameter once the device has left its unconfigured state, and a value
    that the encoder refuses fail with ParameterError, which names the
    parameter; otherwise the encoder gives the wire bytes. *)
Definition validate (d : NortekParameterDictVal) (v : value)
  (st : protocol_state) : result bytes :=
  if decide (visibility d = READ_ONLY) then
    Raise (InstrumentParameterException (name d))
  else if decide (visibility d = IMMUTABLE ∧ conn_state st ≠ UNCONFIGURED) then
    Raise (InstrumentParameterException (name d))
  else
    match f_format d v with
    | OK wire_bytes => OK wire_bytes
    | Raise _ => Raise (InstrumentParameterException (name d))
    end.

(** Modelled from the spec: one set request of section 4.4, missing from
    src/: validate, write the encoded bytes, wait for the acknowledgment,
    and commit the value only on it; on a timeout the shadow value is
    left as it was. *)
Definition set_one (d : NortekParameterDictVal) (v : value)
  (st : protocol_state) : protocol_state * result unit :=
  match validate d v st with
  | Raise e => (st, Raise e)
  | OK wire_bytes =>
      let st := with_write (name d, wire_bytes) st in
      if device_ack (wire st) then
        (with_shadow (<[name d := v]> (shadow st)) st, OK ())
      else (st, Raise (InstrumentTimeoutException (name d)))
  end.

(** The batch over the descriptors [ds], in their declared order: the
    first failure ends it, and what was committed stays. *)
Fixpoint set_batch (ds : list NortekParameterDictVal)
  (params : gmap string value) (st : protocol_state)
  : protocol_state * result unit :=
  match ds with
  | [] => (st, OK ())
  | d :: ds' =>
      match params !! name d with
      | None => set_batch ds' params st
      | Some v =>
          match set_one d v st with
          | (st', OK _) => set_batch ds' params st'
          | (st', Raise e) => (st', Raise e)
          end
      end
  end.

(** The names of [params] that the dictionary does not hold. *)
Definition unknown_names (params : gmap string value) : list string :=
  filter (fun n => n ∉ name <$> dict) (map_to_list params).*1.

(** Modelled from the spec: NortekInstrumentProtocol._set_params is
    missing from src/; the set-command batch policy of section 4.4.  An
    unknown name is refused before anything is written; then the writes
    are issued in the declared order of the dictionary. *)
Definition _set_params (params : gmap string value) (startup : pyobj)
  (st : protocol_state) : protocol_state * result unit :=
  match unknown_names params with
  | n :: _ => (st, Raise (InstrumentParameterException n))
  | [] => set_batch dict params st
  end.

End ParamDict.

(** *** Sample extraction *)

(** What the protocol hands to the host about one frame. *)
Inductive event : Type :=
| sample_available (p : particle)
| error_event (e : exn).

(** Modelled from the spec: InstrumentProtocol._extract_sample, which
    [_got_chunk] calls with the velocity particle class, is missing from
    src/; by section 4.3 a frame whose particle cannot be built is skipped,
    the error goes out as an event, and extraction resumes on the next
    frame. *)
Definition _got_chunk `{!NortekProtocolParameterDict} (structure : bytes) : event :=
  match AquadoppDwVelocityDataParticle._build_parsed_values structure with
  | OK p => sample_available p
  | Raise e => error_event e
  end.

Definition got_chunks `{!NortekProtocolParameterDict} (structures : list bytes)
  : list event :=
  _got_chunk <$> structures.

(** The superclass as the specification describes it, in front of a device
    that acknowledges as [device_ack] says, with the parameter dictionary
    that the protocol builds. *)
Definition protocol (device_ack : list (string * bytes) -> bool)
  : NortekInstrumentProtocol :=
  Build_NortekInstrumentProtocol
    chunker_sieve_function
    (_set_params Protocol._build_param_dict device_ack).

End Nortek.

(** * Notions used in the statements *)

(** [s[off:off+w]]. *)
Definition slice (off w : nat) (s : bytes) : bytes := take w (drop off s).

(** A descriptor whose encoder gives back the group its decoder read. *)
Definition encodes_back (d : NortekParameterDictVal) : Prop :=
  ∀ g v, length g = (pattern d).2 → f_getval d g = OK v → f_format d v = OK g.

(** In a well-formed table no sync pattern is longer than a frame. *)
Definition well_formed (structs : list sample_structure) : Prop :=
  ∀ s s', s ∈ structs → s' ∈ structs → (length s'.1 ≤ s.2)%nat.

(** The state in which the handler calls [_set_params]. *)
Definition at_set_params (params : gmap string value) (st : protocol_state)
  : protocol_state :=
  foldl Protocol.translate_item
    (Protocol.log_debug "%% IN CHILD _handler_command_set" st)
    (map_to_list params).




(** A descriptor that validation refuses in the state [st]. *)
Definition refused (d : NortekParameterDictVal) (st : protocol_state) : Prop :=
  visibility d = READ_ONLY
  ∨ (visibility d = IMMUTABLE ∧ conn_state st ≠ UNCONFIGURED).


(** The keys of a velocity particle, in the order the driver lists them. *)
Definition velocity_keys : list string :=
  [ AquadoppDwVelocityDataParticleKey.TIMESTAMP;
    AquadoppDwVelocityDataParticleKey.ERROR;
    AquadoppDwVelocityDataParticleKey.ANALOG1;
    AquadoppDwVelocityDataParticleKey.BATTERY_VOLTAGE;
    AquadoppDwVelocityDataParticleKey.SOUND_SPEED_ANALOG2;
    AquadoppDwVelocityDataParticleKey.HEADING;
    AquadoppDwVelocityDataParticleKey.PITCH;
    AquadoppDwVelocityDataParticleKey.ROLL;
    AquadoppDwVelocityDataParticleKey.STATUS;
    AquadoppDwVelocityDataParticleKey.PRESSURE;
    AquadoppDwVelocityDataParticleKey.TEMPERATURE;
    AquadoppDwVelocityDataParticleKey.VELOCITY_BEAM1;
    AquadoppDwVelocityDataParticleKey.VELOCITY_BEAM2;
    AquadoppDwVelocityDataParticleKey.VELOCITY_BEAM3;
    AquadoppDwVelocityDataParticleKey.AMPLITUDE_BEAM1;
    AquadoppDwVelocityDataParticleKey.AMPLITUDE_BEAM2;
    AquadoppDwVelocityDataParticleKey.AMPLITUDE_BEAM3 ].

(** The offsets of the twelve 16-bit groups of a velocity frame. *)
Definition word_offsets : list nat :=
  [8; 10; 12; 14; 16; 18; 20; 24; 26; 28; 30; 32]%nat.

(** The fields that are one 16-bit group each, with the offset of the
    group in the frame. *)
Definition word_fields : list (string * nat) :=
  [ (AquadoppDwVelocityDataParticleKey.ERROR, 8%nat);
    (AquadoppDwVelocityDataParticleKey.ANALOG1, 10%nat);
    (AquadoppDwVelocityDataParticleKey.BATTERY_VOLTAGE, 12%nat);
    (AquadoppDwVelocityDataParticleKey.SOUND_SPEED_ANALOG2, 14%nat);
    (AquadoppDwVelocityDataParticleKey.HEADING, 16%nat);
    (AquadoppDwVelocityDataParticleKey.PITCH, 18%nat);
    (AquadoppDwVelocityDataParticleKey.ROLL, 20%nat);
    (AquadoppDwVelocityDataParticleKey.TEMPERATURE, 26%nat);
    (AquadoppDwVelocityDataParticleKey.VELOCITY_BEAM1, 28%nat);
    (AquadoppDwVelocityDataParticleKey.VELOCITY_BEAM2, 30%nat);
    (AquadoppDwVelocityDataParticleKey.VELOCITY_BEAM3, 32%nat) ].

(** The name and the locator of every descriptor. *)
Definition locators `{!NortekProtocolParameterDict} : list (string * (nat * nat)) :=
  (fun d => (name d, pattern d)) <$> Protocol._build_param_dict.

(** Two fields that do not share a byte. *)
Definition disjoint_fields (a b : nat * nat) : Prop :=
  (a.1 + a.2 ≤ b.1 ∨ b.1 + b.2 ≤ a.1)%nat.

(** The names that the translation loop of the set handler looks for. *)
Definition translated_names : list string :=
  [ Param.TRANSMIT_PULSE_LENGTH; Param.BLANKING_DISTANCE; Param.RECEIVE_LENGTH;
    Param.TIME_BETWEEN_PINGS; Param.DIAGNOSTIC_INTERVAL;
    Param.ADJUSTMENT_SOUND_SPEED ].

(** The parameters that are declared READ_WRITE. *)
Definition settable_names : list string :=
  [ Param.BLANKING_DISTANCE; Param.AVG_INTERVAL; Param.COMPASS_UPDATE_RATE;
    Param.MEASUREMENT_INTERVAL ].

(** A lower-case hexadecimal digit, and an upper-case letter digit. *)
Definition lower_hex (c : byte) : Prop := 48 <= ord c <= 57 ∨ 97 <= ord c <= 102.
Definition upper_hex_letter (c : byte) : Prop := 65 <= ord c <= 70.

(** A line that the translation loop logs for the parameter [n]. *)
Definition translation_note (n : string) (line : string) : Prop :=
  n ∈ translated_names
  ∧ (line = "would need to translate " +:+ n
     ∨ line = "only translate if Aquadopp " +:+ n).

(** The parameters that are declared STRING and decoded as a word. *)
Definition string_typed_words : list string :=
  [ Param.ANALOG_INPUT_ADDR; Param.SW_VERSION; Param.WAVE_MEASUREMENT_MODE ].

(** * Sample inputs *)

Definition initial_state : protocol_state :=
  {| conn_state := COMMAND; shadow := ∅; wire := []; debug_log := [] |}.

(** A 42-byte frame: pressure bytes 01 / 02 03, status 07, all else zero. *)
Definition sample_frame : bytes :=
  VELOCITY_HEADER_DATA_SYNC_BYTES ++ replicate 20 Byte.x00
  ++ [Byte.x01; Byte.x07; Byte.x02; Byte.x03] ++ replicate 16 Byte.x00.

(** A string of 40 bytes and a string of 43 bytes, both starting with the
    sync bytes. *)
Definition frame40 : bytes :=
  VELOCITY_HEADER_DATA_SYNC_BYTES ++ replicate 38 Byte.xff.
Definition frame43 : bytes :=
  VELOCITY_HEADER_DATA_SYNC_BYTES ++ replicate 41 Byte.xff.

(** A configuration block of 512 bytes with 00 7D at offset 6. *)
Definition sample_block : bytes :=
  replicate 6 Byte.xff ++ [Byte.x00; Byte.x7d] ++ replicate 504 Byte.xff.

(** The string 'AB12'. *)
Definition upper_hex : bytes := [Byte.x41; Byte.x42; Byte.x31; Byte.x32].

(** Noise, a frame cut in two, and the beginning of a second frame. *)
Definition sample_chunks : list bytes :=
  [ [Byte.x00; Byte.xa5; Byte.x17];
    take 10 sample_frame;
    drop 10 sample_frame ++ [Byte.xa5];
    [Byte.x01; Byte.x02] ].

(** A frame whose byte at offset [i] is [i], behind the sync bytes. *)
Definition counting_frame : bytes :=
  VELOCITY_HEADER_DATA_SYNC_BYTES
  ++ ((fun i => default Byte.x00 (Byte.of_N (N.of_nat i))) <$> seq 2 40).

(** Two descriptors of the dictionary, with the conversions of the
    specification. *)
Definition transmit_pulse_length : NortekParameterDictVal :=
  @Protocol.word_parameter Nortek.primitives Param.TRANSMIT_PULSE_LENGTH 4
    INT IMMUTABLE "transmit pulse length" 125 (Some CENTIMETERS).
Definition blanking_distance : NortekParameterDictVal :=
  @Protocol.word_parameter Nortek.primitives Param.BLANKING_DISTANCE 6
    INT READ_WRITE "blanking distance" 49 (Some CENTIMETERS).

(** The USER_2_SPARE descriptor of the dictionary. *)
Definition user_2_spare : NortekParameterDictVal :=
  default blanking_distance
    (@Protocol._build_param_dict Nortek.primitives !! 23%nat).

(** * Properties *)

(** ** The sieve entry point *)

(** C10: the sieve entry point does not depend on its [add_structs] argument:
    whatever the argument, it is the superclass sieve run on the buffer with
    the one velocity structure (sync bytes A5 01, length 42). *)
Theorem chunker_sieve_function_fixed_table
  `{!NortekInstrumentProtocol}
  (raw_data : bytes) (add_structs1 add_structs2 : list sample_structure) :
  Protocol.chunker_sieve_function raw_data add_structs1
  = Protocol.chunker_sieve_function raw_data add_structs2
  ∧ Protocol.chunker_sieve_function raw_data add_structs1
    = base_chunker_sieve_function raw_data [([Byte.xa5; Byte.x01], 42%nat)].
Proof.
  split; reflexivity.
Qed.

(** ** The set command handler: argument checks *)

Section Handler.
Context `{!NortekInstrumentProtocol}.

(** The translation loop writes to the debug log only. *)
Lemma translate_item_frame st item :
  conn_state (Protocol.translate_item st item) = conn_state st
  ∧ shadow (Protocol.translate_item st item) = shadow st
  ∧ wire (Protocol.translate_item st item) = wire st.
Proof.
  unfold Protocol.translate_item.
  repeat case_decide; simpl; auto.
Qed.

Lemma translation_loop_frame items st :
  conn_state (foldl Protocol.translate_item st items) = conn_state st
  ∧ shadow (foldl Protocol.translate_item st items) = shadow st
  ∧ wire (foldl Protocol.translate_item st items) = wire st.
Proof.
  revert st. induction items as [| item items IH]; intros st; simpl; [auto |].
  destruct (IH (Protocol.translate_item st item)) as (-> & -> & ->).
  apply translate_item_frame.
Qed.

Lemma at_set_params_frame params st :
  conn_state (at_set_params params st) = conn_state st
  ∧ shadow (at_set_params params st) = shadow st
  ∧ wire (at_set_params params st) = wire st.
Proof.
  unfold at_set_params.
  destruct (translation_loop_frame (map_to_list params)
    (Protocol.log_debug "%% IN CHILD _handler_command_set" st)) as (-> & -> & ->).
  auto.
Qed.

(** What the handler does with a dict as its first argument. *)
Lemma handler_dict params others st :
  Protocol._handler_command_set (PDict params :: others) st
  = let startup := default (PVal (VBool false)) (others !! 0%nat) in
    let '(st', r) := _set_params params startup (at_set_params params st) in
    (st', _ ← r; OK (VNone, VNone)).
Proof.
  unfold Protocol._handler_command_set, at_set_params. simpl.
  destruct others; reflexivity.
Qed.

End Handler.

(** C9: without a positional argument, or with a first argument that is not
    a dict, the handler raises InstrumentParameterException and the shadow
    values and the wire are as before; a missing second argument is read as
    False; a handler that returns returns the pair (None, None), and it
    returns whenever [_set_params] does. *)
Theorem handler_command_set_arguments
  `{!NortekInstrumentProtocol} (st : protocol_state) :
  (let '(st', r) := Protocol._handler_command_set [] st in
   r = Raise (InstrumentParameterException Protocol.requires_dict)
   ∧ shadow st' = shadow st ∧ wire st' = wire st ∧ conn_state st' = conn_state st)
  ∧ (∀ v others,
      let '(st', r) := Protocol._handler_command_set (PVal v :: others) st in
      r = Raise (InstrumentParameterException Protocol.not_a_dict)
      ∧ shadow st' = shadow st ∧ wire st' = wire st ∧ conn_state st' = conn_state st)
  ∧ (∀ params,
      Protocol._handler_command_set [PDict params] st
      = Protocol._handler_command_set [PDict params; PVal (VBool false)] st)
  ∧ (∀ args st' r,
      Protocol._handler_command_set args st = (st', OK r) → r = (VNone, VNone))
  ∧ (∀ params others st',
      _set_params params (default (PVal (VBool false)) (others !! 0%nat))
        (at_set_params params st) = (st', OK ()) →
      Protocol._handler_command_set (PDict params :: others) st
      = (st', OK (VNone, VNone))).
Proof.
  split; [| split; [| split; [| split]]].
  - simpl. auto.
  - intros v others. simpl. destruct others; simpl; auto.
  - reflexivity.
  - intros args st' r.
    destruct args as [| [params | v] others].
    + discriminate.
    + rewrite handler_dict. simpl.
      destruct (_set_params _ _ _) as [st1 [[] | e]]; simpl; [| discriminate].
      intros [= _ <-]. reflexivity.
    + unfold Protocol._handler_command_set. simpl.
      destruct others; discriminate.
  - intros params others st' Hset. rewrite handler_dict. simpl.
    rewrite Hset. reflexivity.
Qed.

(** ** The velocity data particle *)

Lemma slice_length off w s : (off + w ≤ length s)%nat → length (slice off w s) = w.
Proof. intros H. unfold slice. rewrite length_take, length_drop. lia. Qed.

Lemma slice_one off s c : slice off 1 s = [c] → s !! off = Some c.
Proof.
  unfold slice. intros H.
  assert (E : take 1 (drop off s) !! 0%nat = Some c) by (rewrite H; reflexivity).
  rewrite lookup_take_lt in E by lia. rewrite lookup_drop in E.
  rewrite Nat.add_0_r in E. exact E.
Qed.

Lemma slice_one_lookup off s c : s !! off = Some c → slice off 1 s = [c].
Proof.
  unfold slice. intros H.
  rewrite (drop_S s c off H). reflexivity.
Qed.

(** The groups of a fixed-width pattern are consecutive slices. *)
Lemma groups_slices widths s off :
  (off + sum_list widths ≤ length s)%nat →
  Regex.groups widths (drop off s)
  = Some ((fix go (ws : list nat) (o : nat) : list bytes :=
             match ws with
             | [] => []
             | w :: ws' => slice o w s :: go ws' (o + w)%nat
             end) widths off).
Proof.
  revert off. induction widths as [| w ws IH]; intros off H; simpl in *.
  - reflexivity.
  - rewrite decide_True by (rewrite length_drop; lia).
    rewrite drop_drop. rewrite IH by lia. reflexivity.
Qed.

Lemma groups_short widths s :
  (length s < sum_list widths)%nat → Regex.groups widths s = None.
Proof.
  revert s. induction widths as [| w ws IH]; intros s H; simpl in *.
  - lia.
  - case_decide; [| reflexivity].
    rewrite IH by (rewrite length_drop; lia). reflexivity.
Qed.

(** The velocity pattern matches a string exactly when it starts with the
    sync bytes and has at least forty bytes; the groups are then the slices
    of the layout. *)
Lemma velocity_regex_match raw :
  (40 ≤ length raw)%nat →
  take 2 raw = VELOCITY_HEADER_DATA_SYNC_BYTES →
  VELOCITY_DATA_REGEX raw
  = Some [slice 2 6 raw; slice 8 2 raw; slice 10 2 raw; slice 12 2 raw;
          slice 14 2 raw; slice 16 2 raw; slice 18 2 raw; slice 20 2 raw;
          slice 22 1 raw; slice 23 1 raw; slice 24 2 raw; slice 26 2 raw;
          slice 28 2 raw; slice 30 2 raw; slice 32 2 raw; slice 34 1 raw;
          slice 35 1 raw; slice 36 1 raw; slice 37 3 raw].
Proof.
  intros Hlen Hsync. unfold VELOCITY_DATA_REGEX, Regex.match_.
  rewrite decide_True by exact Hsync.
  change (length VELOCITY_HEADER_DATA_SYNC_BYTES) with 2%nat.
  rewrite groups_slices by (simpl; lia). reflexivity.
Qed.

Lemma velocity_regex_no_match raw :
  (length raw < 40)%nat ∨ take 2 raw ≠ VELOCITY_HEADER_DATA_SYNC_BYTES →
  VELOCITY_DATA_REGEX raw = None.
Proof.
  intros H. unfold VELOCITY_DATA_REGEX, Regex.match_.
  change (length VELOCITY_HEADER_DATA_SYNC_BYTES) with 2%nat.
  case_decide as Hsync; [| reflexivity].
  destruct H as [H | H]; [| contradiction].
  apply groups_short. rewrite length_drop. simpl. lia.
Qed.

Lemma velocity_regex_dec raw :
  {(40 ≤ length raw)%nat ∧ take 2 raw = VELOCITY_HEADER_DATA_SYNC_BYTES}
  + {(length raw < 40)%nat ∨ take 2 raw ≠ VELOCITY_HEADER_DATA_SYNC_BYTES}.
Proof.
  destruct (decide (40 ≤ length raw)%nat);
    destruct (decide (take 2 raw = VELOCITY_HEADER_DATA_SYNC_BYTES));
    (left; split; assumption) || (right; (left; lia) || (right; assumption)).
Qed.

Lemma ord_group_OK g z : ord_group g = OK z → ∃ c, g = [c] ∧ z = ord c.
Proof.
  destruct g as [| c [| ? ?]]; simpl; try discriminate.
  intros [= <-]. eauto.
Qed.

Section ParticleFacts.
Context `{!NortekProtocolParameterDict}.
Import AquadoppDwVelocityDataParticle AquadoppDwVelocityDataParticleKey.

(** Case analysis on the result of a bound computation. *)
Local Ltac bind_OK H :=
  match type of H with
  | mbind _ ?m = OK _ =>
      let E := fresh "E" in
      destruct m eqn:E; simpl in H; [| discriminate H]
  end.

(** What a built particle holds, in terms of the groups of the match. *)
Lemma build_particle_fields g1 g2 g3 g4 g5 g6 g7 g8 g9 g10 g11 g12 g13 g14
  g15 g16 g17 g18 g19 p :
  _build_particle [g1; g2; g3; g4; g5; g6; g7; g8; g9; g10; g11; g12; g13;
                   g14; g15; g16; g17; g18; g19] = OK p →
  ∃ ts msb st lsw a1 a2 a3,
    convert_time g1 = OK ts
    ∧ ord_group g9 = OK msb ∧ ord_group g10 = OK st
    ∧ convert_word_to_int g11 = OK lsw
    ∧ ord_group g16 = OK a1 ∧ ord_group g17 = OK a2 ∧ ord_group g18 = OK a3
    ∧ length p = 17%nat
    ∧ particle_value TIMESTAMP p = Some ts
    ∧ particle_value PRESSURE p = Some (VInt (msb * 65536 + lsw))
    ∧ particle_value STATUS p = Some (VInt st)
    ∧ particle_value AMPLITUDE_BEAM1 p = Some (VInt a1)
    ∧ particle_value AMPLITUDE_BEAM2 p = Some (VInt a2)
    ∧ particle_value AMPLITUDE_BEAM3 p = Some (VInt a3).
Proof.
  unfold _build_particle. intros Hp.
  repeat bind_OK Hp.
  injection Hp; intros <-.
  repeat eexists; try eassumption; reflexivity.
Qed.

(** A particle is built whenever the conversions accept their groups. *)
Lemma build_particle_total raw :
  (∀ w, length w = 2%nat → is_OK (convert_word_to_int w) = true) →
  (∀ t, length t = 6%nat → is_OK (convert_time t) = true) →
  (40 ≤ length raw)%nat →
  take 2 raw = VELOCITY_HEADER_DATA_SYNC_BYTES →
  ∃ p, _build_parsed_values raw = OK p.
Proof.
  intros Hword Htime Hlen Hsync.
  unfold _build_parsed_values. rewrite velocity_regex_match by assumption.
  unfold _build_particle.
  repeat match goal with
  | |- context [convert_time (slice ?o ?w raw)] =>
      let E := fresh "E" in
      assert (E : is_OK (convert_time (slice o w raw)) = true)
        by (apply Htime, slice_length; lia);
      destruct (convert_time (slice o w raw)); [clear E | discriminate E]; simpl
  | |- context [convert_word_to_int (slice ?o ?w raw)] =>
      let E := fresh "E" in
      assert (E : is_OK (convert_word_to_int (slice o w raw)) = true)
        by (apply Hword, slice_length; lia);
      destruct (convert_word_to_int (slice o w raw)); [clear E | discriminate E];
      simpl
  | |- context [ord_group (slice ?o 1 raw)] =>
      let c := fresh "c" in
      let E := fresh "E" in
      destruct (lookup_lt_is_Some_2 raw o ltac:(lia)) as [c E];
      rewrite (slice_one_lookup o raw c E); simpl
  end.
  eauto.
Qed.

End ParticleFacts.

Section ParticleLayout.
Context `{!NortekProtocolParameterDict}.
Import AquadoppDwVelocityDataParticle AquadoppDwVelocityDataParticleKey.

Local Ltac bind_result Hp :=
  match type of Hp with
  | mbind _ ?m = _ =>
      let E := fresh "E" in
      destruct m eqn:E; simpl in Hp
  end.

(** A built particle, written out: every value is the conversion of its
    group, and the entries stand in the order of the driver. *)
Lemma build_particle_explicit g1 g2 g3 g4 g5 g6 g7 g8 g9 g10 g11 g12 g13 g14
  g15 g16 g17 g18 g19 p :
  _build_particle [g1; g2; g3; g4; g5; g6; g7; g8; g9; g10; g11; g12; g13;
                   g14; g15; g16; g17; g18; g19] = OK p →
  ∃ ts e a1 bv ss hd pt rl msb st lsw tmp v1 v2 v3 am1 am2 am3,
    (convert_time g1 = OK ts
     ∧ convert_word_to_int g2 = OK e ∧ convert_word_to_int g3 = OK a1
     ∧ convert_word_to_int g4 = OK bv ∧ convert_word_to_int g5 = OK ss
     ∧ convert_word_to_int g6 = OK hd ∧ convert_word_to_int g7 = OK pt
     ∧ convert_word_to_int g8 = OK rl)
    ∧ (ord_group g9 = OK msb ∧ ord_group g10 = OK st
       ∧ convert_word_to_int g11 = OK lsw ∧ convert_word_to_int g12 = OK tmp
       ∧ convert_word_to_int g13 = OK v1 ∧ convert_word_to_int g14 = OK v2
       ∧ convert_word_to_int g15 = OK v3)
    ∧ (ord_group g16 = OK am1 ∧ ord_group g17 = OK am2
       ∧ ord_group g18 = OK am3)
    ∧ p = [(TIMESTAMP, ts); (ERROR, VInt e); (ANALOG1, VInt a1);
           (BATTERY_VOLTAGE, VInt bv); (SOUND_SPEED_ANALOG2, VInt ss);
           (HEADING, VInt hd); (PITCH, VInt pt); (ROLL, VInt rl);
           (STATUS, VInt st); (PRESSURE, VInt (msb * 65536 + lsw));
           (TEMPERATURE, VInt tmp); (VELOCITY_BEAM1, VInt v1);
           (VELOCITY_BEAM2, VInt v2); (VELOCITY_BEAM3, VInt v3);
           (AMPLITUDE_BEAM1, VInt am1); (AMPLITUDE_BEAM2, VInt am2);
           (AMPLITUDE_BEAM3, VInt am3)].
Proof.
  unfold _build_particle. intros Hp.
  repeat (bind_result Hp; [| discriminate Hp]).
  injection Hp; intros <-.
  do 18 eexists. repeat split; reflexivity.
Qed.

(** The same for an accepted string, in terms of its slices. *)
Lemma build_parsed_values_explicit raw p :
  _build_parsed_values raw = OK p →
  ((40 ≤ length raw)%nat ∧ take 2 raw = VELOCITY_HEADER_DATA_SYNC_BYTES)
  ∧ _build_particle
      [slice 2 6 raw; slice 8 2 raw; slice 10 2 raw; slice 12 2 raw;
       slice 14 2 raw; slice 16 2 raw; slice 18 2 raw; slice 20 2 raw;
       slice 22 1 raw; slice 23 1 raw; slice 24 2 raw; slice 26 2 raw;
       slice 28 2 raw; slice 30 2 raw; slice 32 2 raw; slice 34 1 raw;
       slice 35 1 raw; slice 36 1 raw; slice 37 3 raw] = OK p.
Proof.
  unfold _build_parsed_values. intros Hp.
  destruct (velocity_regex_dec raw) as [[Hlen Hsync] | Hno].
  - rewrite velocity_regex_match in Hp by assumption. auto.
  - rewrite velocity_regex_no_match in Hp by assumption. discriminate.
Qed.

End ParticleLayout.

(** C7: in a 42-byte frame that the extractor accepts, every field is
    decoded by its primitive from its own bytes: the timestamp is the time
    conversion of the six bytes behind the sync bytes; the error code, the
    analog input, the battery voltage, the sound speed, the heading, the
    pitch, the roll, the temperature and the three beam velocities are the
    word-to-int conversions of the two bytes at offsets 8, 10, 12, 14, 16,
    18, 20, 26, 28, 30 and 32; the pressure is the byte at offset 22 times
    65536 plus the word-to-int conversion of the bytes at offsets 24 and 25;
    the status and the three amplitudes are the ordinals of the bytes at
    offsets 23, 34, 35 and 36.  The particle holds these seventeen values
    and nothing else. *)
Theorem velocity_particle_fields
  `{!NortekProtocolParameterDict} (raw : bytes) (p : particle) :
  length raw = 42%nat →
  AquadoppDwVelocityDataParticle._build_parsed_values raw = OK p →
  ∃ b22 b23 b34 b35 b36 ts err an bv ss hd pt rl lsw tmp v1 v2 v3,
    (raw !! 22%nat = Some b22 ∧ raw !! 23%nat = Some b23
     ∧ raw !! 34%nat = Some b34 ∧ raw !! 35%nat = Some b35
     ∧ raw !! 36%nat = Some b36)
    ∧ convert_time (slice 2 6 raw) = OK ts
    ∧ (convert_word_to_int (slice 8 2 raw) = OK err
       ∧ convert_word_to_int (slice 10 2 raw) = OK an
       ∧ convert_word_to_int (slice 12 2 raw) = OK bv
       ∧ convert_word_to_int (slice 14 2 raw) = OK ss
       ∧ convert_word_to_int (slice 16 2 raw) = OK hd
       ∧ convert_word_to_int (slice 18 2 raw) = OK pt
       ∧ convert_word_to_int (slice 20 2 raw) = OK rl
       ∧ convert_word_to_int (slice 24 2 raw) = OK lsw
       ∧ convert_word_to_int (slice 26 2 raw) = OK tmp
       ∧ convert_word_to_int (slice 28 2 raw) = OK v1
       ∧ convert_word_to_int (slice 30 2 raw) = OK v2
       ∧ convert_word_to_int (slice 32 2 raw) = OK v3)
    ∧ p = [ (AquadoppDwVelocityDataParticleKey.TIMESTAMP, ts);
            (AquadoppDwVelocityDataParticleKey.ERROR, VInt err);
            (AquadoppDwVelocityDataParticleKey.ANALOG1, VInt an);
            (AquadoppDwVelocityDataParticleKey.BATTERY_VOLTAGE, VInt bv);
            (AquadoppDwVelocityDataParticleKey.SOUND_SPEED_ANALOG2, VInt ss);
            (AquadoppDwVelocityDataParticleKey.HEADING, VInt hd);
            (AquadoppDwVelocityDataParticleKey.PITCH, VInt pt);
            (AquadoppDwVelocityDataParticleKey.ROLL, VInt rl);
            (AquadoppDwVelocityDataParticleKey.STATUS, VInt (ord b23));
            (AquadoppDwVelocityDataParticleKey.PRESSURE,
             VInt (ord b22 * 65536 + lsw));
            (AquadoppDwVelocityDataParticleKey.TEMPERATURE, VInt tmp);
            (AquadoppDwVelocityDataParticleKey.VELOCITY_BEAM1, VInt v1);
            (AquadoppDwVelocityDataParticleKey.VELOCITY_BEAM2, VInt v2);
            (AquadoppDwVelocityDataParticleKey.VELOCITY_BEAM3, VInt v3);
            (AquadoppDwVelocityDataParticleKey.AMPLITUDE_BEAM1, VInt (ord b34));
            (AquadoppDwVelocityDataParticleKey.AMPLITUDE_BEAM2, VInt (ord b35));
            (AquadoppDwVelocityDataParticleKey.AMPLITUDE_BEAM3, VInt (ord b36)) ].
Proof.
  intros Hlen Hbuild.
  apply build_parsed_values_explicit in Hbuild as [_ Hbuild].
  apply build_particle_explicit in Hbuild
    as (ts & err & an & bv & ss & hd & pt & rl & msb & st & lsw & tmp & v1
        & v2 & v3 & a1 & a2 & a3
        & (Ets & Eerr & Ean & Ebv & Ess & Ehd & Ept & Erl)
        & (Emsb & Est & Elsw & Etmp & Ev1 & Ev2 & Ev3)
        & (Ea1 & Ea2 & Ea3) & ->).
  apply ord_group_OK in Emsb as (b22 & E22 & ->).
  apply ord_group_OK in Est as (b23 & E23 & ->).
  apply ord_group_OK in Ea1 as (b34 & E34 & ->).
  apply ord_group_OK in Ea2 as (b35 & E35 & ->).
  apply ord_group_OK in Ea3 as (b36 & E36 & ->).
  exists b22, b23, b34, b35, b36, ts, err, an, bv, ss, hd, pt, rl, lsw, tmp,
    v1, v2, v3.
  split; [repeat split; auto using slice_one |].
  split; [exact Ets |].
  split; [repeat split; assumption | reflexivity].
Qed.

Lemma velocity_particle_fields_witness :
  ∃ p,
    AquadoppDwVelocityDataParticle._build_parsed_values counting_frame = OK p
    ∧ particle_value AquadoppDwVelocityDataParticleKey.PRESSURE p
      = Some (VInt 1447961)
    ∧ particle_value AquadoppDwVelocityDataParticleKey.STATUS p
      = Some (VInt 23)
    ∧ particle_value AquadoppDwVelocityDataParticleKey.ERROR p
      = Some (VInt 2057)
    ∧ particle_value AquadoppDwVelocityDataParticleKey.HEADING p
      = Some (VInt 4113)
    ∧ particle_value AquadoppDwVelocityDataParticleKey.TEMPERATURE p
      = Some (VInt 6683).
Proof.
  destruct (AquadoppDwVelocityDataParticle._build_parsed_values counting_frame)
    as [p | e] eqn:E; [| vm_compute in E; discriminate E].
  exists p. split; [reflexivity |].
  destruct (velocity_particle_fields counting_frame p eq_refl E)
    as (b22 & b23 & b34 & b35 & b36 & ts & err & an & bv & ss & hd & pt & rl
        & lsw & tmp & v1 & v2 & v3
        & (E22 & E23 & _) & _
        & (Eerr & _ & _ & _ & Ehd & _ & _ & Elsw & Etmp & _) & Hp).
  vm_compute in E22, E23, Eerr, Ehd, Elsw, Etmp.
  injection E22 as <-. injection E23 as <-. injection Eerr as <-.
  injection Ehd as <-. injection Elsw as <-. injection Etmp as <-.
  rewrite Hp. repeat split; reflexivity.
Defined.

(** ** Which strings the extractor accepts *)

(** A string whose length is not the length of a velocity structure is
    accepted all the same: the pattern covers forty bytes and has no anchor
    at its end. *)
Lemma wrong_length_accepted :
  length frame40 ≠ VELOCITY_DATA_LEN
  ∧ length frame43 ≠ VELOCITY_DATA_LEN
  ∧ is_Some (VELOCITY_DATA_REGEX frame40)
  ∧ is_Some (VELOCITY_DATA_REGEX frame43)
  ∧ is_OK (AquadoppDwVelocityDataParticle._build_parsed_values frame40) = true
  ∧ is_OK (AquadoppDwVelocityDataParticle._build_parsed_values frame43) = true.
Proof.
  repeat split; try (vm_compute; congruence); vm_compute; eauto.
Qed.

(** C4, amended: with conversions that accept every group of their width,
    the particle of a string is built exactly when the string has at least
    forty bytes and starts with the sync bytes A5 01, and it then has its
    seventeen fields; every other string raises SampleException.  What
    becomes of a frame depends on that frame alone: the events of the frames
    before and after it are the same whether it fails or not. *)
Theorem velocity_particle_accepted
  `{!NortekProtocolParameterDict} (raw : bytes) :
  (∀ w, length w = 2%nat → is_OK (convert_word_to_int w) = true) →
  (∀ t, length t = 6%nat → is_OK (convert_time t) = true) →
  ((40 ≤ length raw)%nat ∧ take 2 raw = VELOCITY_HEADER_DATA_SYNC_BYTES →
   ∃ p, AquadoppDwVelocityDataParticle._build_parsed_values raw = OK p
        ∧ length p = 17%nat)
  ∧ ((length raw < 40)%nat ∨ take 2 raw ≠ VELOCITY_HEADER_DATA_SYNC_BYTES →
     AquadoppDwVelocityDataParticle._build_parsed_values raw
     = Raise (SampleException AquadoppDwVelocityDataParticle.no_regex_match
                [raw]))
  ∧ (∀ before after,
      Nortek.got_chunks (before ++ raw :: after)
      = Nortek.got_chunks before ++ Nortek._got_chunk raw
        :: Nortek.got_chunks after).
Proof.
  intros Hword Htime. split; [| split].
  - intros [Hlen Hsync].
    destruct (build_particle_total raw Hword Htime Hlen Hsync) as [p Hp].
    exists p. split; [exact Hp |].
    unfold AquadoppDwVelocityDataParticle._build_parsed_values in Hp.
    rewrite velocity_regex_match in Hp by assumption.
    apply build_particle_fields in Hp
      as (? & ? & ? & ? & ? & ? & ? & _ & _ & _ & _ & _ & _ & _ & Hn & _).
    exact Hn.
  - intros Hno.
    unfold AquadoppDwVelocityDataParticle._build_parsed_values.
    rewrite velocity_regex_no_match by assumption. reflexivity.
  - intros before after. unfold Nortek.got_chunks.
    rewrite fmap_app. reflexivity.
Qed.

Lemma word_conversion_total (w : bytes) :
  length w = 2%nat → is_OK (Nortek.convert_word_to_int w) = true.
Proof.
  destruct w as [| hi [| lo [| ? ?]]]; simpl; intros; reflexivity || lia.
Qed.

Lemma velocity_particle_accepted_witness :
  ∃ p, AquadoppDwVelocityDataParticle._build_parsed_values frame43 = OK p
       ∧ length p = 17%nat.
Proof.
  apply (@velocity_particle_accepted Nortek.primitives frame43
           word_conversion_total (fun _ _ => eq_refl)).
  split; [vm_compute; lia | reflexivity].
Defined.

(** ** The parameter dictionary *)

Lemma locate_slice off w s :
  (off + w ≤ length s)%nat → Regex.locate off w s = Some (slice off w s).
Proof.
  intros H. unfold Regex.locate, Regex.match_.
  change (length (@nil byte)) with 0%nat.
  rewrite decide_True by reflexivity.
  rewrite groups_slices by (simpl; lia). reflexivity.
Qed.

Lemma locate_short off w s :
  (length s < off + w)%nat → Regex.locate off w s = None.
Proof.
  intros H. unfold Regex.locate, Regex.match_.
  change (length (@nil byte)) with 0%nat.
  rewrite decide_True by reflexivity.
  rewrite groups_short by (rewrite length_drop; simpl; lia). reflexivity.
Qed.

Lemma decode_all_names ds raw sh sh' names :
  Nortek.decode_all ds raw sh = OK (sh', names) → names = name <$> ds.
Proof.
  revert sh sh' names. induction ds as [| d ds IH]; intros sh sh' names H;
    simpl in H.
  - injection H as _ <-. reflexivity.
  - destruct (Regex.locate _ _ raw); [| discriminate].
    destruct (f_getval d _); simpl in H; [| discriminate].
    destruct (Nortek.decode_all ds raw _) as [[sh1 names1] |] eqn:E;
      simpl in H; [| discriminate].
    injection H as _ <-. rewrite (IH _ _ _ E). reflexivity.
Qed.

(** A block is decoded descriptor by descriptor: the names updated are the
    names of the dictionary, and under a name that occurs once the decoded
    value of its slice is stored. *)
Lemma decode_all_lookup ds raw sh sh' names d :
  Nortek.decode_all ds raw sh = OK (sh', names) →
  NoDup (name <$> ds) →
  d ∈ ds →
  names = name <$> ds
  ∧ ∃ v, f_getval d (slice (pattern d).1 (pattern d).2 raw) = OK v
         ∧ sh' !! name d = Some v.
Proof.
  revert sh sh' names.
  induction ds as [| d0 ds IH]; intros sh sh' names Hdec Hnd Hin.
  - apply elem_of_nil in Hin as [].
  - simpl in Hdec.
    destruct (Regex.locate _ _ raw) as [g |] eqn:Eloc; [| discriminate].
    assert (g = slice (pattern d0).1 (pattern d0).2 raw) as ->.
    { destruct (decide ((pattern d0).1 + (pattern d0).2 ≤ length raw)%nat).
      - rewrite locate_slice in Eloc by assumption. congruence.
      - rewrite locate_short in Eloc by lia. discriminate. }
    destruct (f_getval d0 _) as [v |] eqn:Ev; simpl in Hdec; [| discriminate].
    destruct (Nortek.decode_all ds raw _) as [[sh1 names1] |] eqn:Erest;
      simpl in Hdec; [| discriminate].
    injection Hdec as <- <-.
    rewrite fmap_cons in Hnd. apply NoDup_cons in Hnd as [Hfresh Hnd].
    assert (Hother : ∀ sh0 sh1 names1,
      Nortek.decode_all ds raw sh0 = OK (sh1, names1) →
      name d0 ∉ name <$> ds → sh1 !! name d0 = sh0 !! name d0).
    { clear. induction ds as [| d1 ds IH]; intros sh0 sh1 names1 H Hni; simpl in H.
      - congruence.
      - destruct (Regex.locate _ _ raw); [| discriminate].
        destruct (f_getval d1 _); simpl in H; [| discriminate].
        destruct (Nortek.decode_all ds raw _) as [[sh2 names2] |] eqn:E;
          simpl in H; [| discriminate].
        injection H as <- <-.
        rewrite fmap_cons in Hni. apply not_elem_of_cons in Hni as [Hne Hni].
        rewrite (IH _ _ _ E Hni). apply lookup_insert_ne. congruence. }
    apply elem_of_cons in Hin as [-> | Hin].
    + split.
      * rewrite (decode_all_names _ _ _ _ _ Erest). reflexivity.
      * exists v. split; [exact Ev |].
        rewrite (Hother _ _ _ Erest Hfresh). apply lookup_insert_eq.
    + destruct (IH _ _ _ Erest Hnd Hin) as [-> Hv].
      split; [reflexivity | exact Hv].
Qed.

(** A block that covers every locator is decoded when the decoders accept
    every group of their width. *)
Lemma decode_all_total ds raw sh :
  Forall (fun d => ((pattern d).1 + (pattern d).2 ≤ length raw)%nat
                   ∧ ∀ g, length g = (pattern d).2 → is_OK (f_getval d g) = true) ds →
  ∃ sh' names, Nortek.decode_all ds raw sh = OK (sh', names).
Proof.
  revert sh. induction ds as [| d ds IH]; intros sh Hall; simpl.
  - eauto.
  - apply Forall_cons in Hall as [[Hfit Hdec] Hall].
    rewrite locate_slice by assumption.
    specialize (Hdec _ (slice_length _ _ _ Hfit)).
    destruct (f_getval d _) as [v |]; [| discriminate]. simpl.
    destruct (IH (<[name d := v]> sh) Hall) as (sh' & names & ->). simpl. eauto.
Qed.

Lemma slice_two off s a b :
  s !! off = Some a → s !! S off = Some b → slice off 2 s = [a; b].
Proof.
  intros Ha Hb. unfold slice.
  rewrite (drop_S s a off Ha), (drop_S s b (S off) Hb). reflexivity.
Qed.

(** No two descriptors of the dictionary share a name. *)
Lemma param_dict_names_NoDup `{!NortekProtocolParameterDict} :
  NoDup (name <$> Protocol._build_param_dict).
Proof.
  apply (bool_decide_unpack _). vm_compute. reflexivity.
Qed.

(** With the conversions of the specification, a block of at least 458
    bytes covers every locator and every decoder accepts its group. *)
Lemma param_dict_decodable (block : bytes) :
  (458 ≤ length block)%nat →
  Forall (fun d => ((pattern d).1 + (pattern d).2 ≤ length block)%nat
                   ∧ ∀ g, length g = (pattern d).2 → is_OK (f_getval d g) = true)
    (@Protocol._build_param_dict Nortek.primitives).
Proof.
  intros Hlen. unfold Protocol._build_param_dict.
  repeat apply Forall_cons_2; try apply Forall_nil_2;
    (split; [simpl; lia |]); simpl; intros g Hg.
  all: try (destruct g as [| ? [| ? [| ? ?]]]; simpl in Hg; try lia; reflexivity).
  - unfold Nortek.convert_words_to_datetime.
    rewrite decide_True by assumption. reflexivity.
  - destruct g as [| ? [| ? [| ? [| ? [| ? ?]]]]]; simpl in Hg; try lia.
    reflexivity.
Qed.

(** No registered descriptor has both the locator of offset 6 and the
    default value 125. *)
Lemma no_parameter_at_6_with_default_125 :
  ¬ ∃ d, d ∈ @Protocol._build_param_dict Nortek.primitives
         ∧ pattern d = (6, 2)%nat ∧ default_value d = Some (VInt 125).
Proof.
  intros (d & Hin & Hpat & Hdef). unfold Protocol._build_param_dict in Hin.
  repeat (apply elem_of_cons in Hin as [-> | Hin];
          [simpl in Hpat, Hdef; congruence |]).
  apply elem_of_nil in Hin as [].
Qed.

(** C3, amended: the parameter with default value 125 is
    TRANSMIT_PULSE_LENGTH, whose locator is the 2-byte word at offset 4;
    the parameter at offset 6 is BLANKING_DISTANCE, with default value 49.
    Decoding a configuration block that covers every locator and holds the
    bytes 00 7D at offset 6 makes [get] of BLANKING_DISTANCE return 125
    under the big-endian word conversion. *)
Theorem blanking_distance_decoded (block : bytes) (st : protocol_state) :
  (458 ≤ length block)%nat →
  block !! 6%nat = Some Byte.x00 →
  block !! 7%nat = Some Byte.x7d →
  (∃ d, d ∈ @Protocol._build_param_dict Nortek.primitives
        ∧ name d = Param.TRANSMIT_PULSE_LENGTH
        ∧ pattern d = (4, 2)%nat ∧ default_value d = Some (VInt 125))
  ∧ (∃ d, d ∈ @Protocol._build_param_dict Nortek.primitives
          ∧ name d = Param.BLANKING_DISTANCE
          ∧ pattern d = (6, 2)%nat ∧ default_value d = Some (VInt 49))
  ∧ (let '(st', r) := Nortek.decode_from Protocol._build_param_dict block st in
     r = OK (name <$> @Protocol._build_param_dict Nortek.primitives)
     ∧ Nortek.get Param.BLANKING_DISTANCE st' = Some (VInt 125)).
Proof.
  intros Hlen H6 H7.
  set (tpl := Protocol.word_parameter Param.TRANSMIT_PULSE_LENGTH 4 INT IMMUTABLE
                "transmit pulse length" 125 (Some CENTIMETERS)).
  set (bd := Protocol.word_parameter Param.BLANKING_DISTANCE 6 INT READ_WRITE
               "blanking distance" 49 (Some CENTIMETERS)).
  assert (Htpl : tpl ∈ @Protocol._build_param_dict Nortek.primitives)
    by apply list_elem_of_here.
  assert (Hbd : bd ∈ @Protocol._build_param_dict Nortek.primitives)
    by apply list_elem_of_further, list_elem_of_here.
  split; [exists tpl; auto |]. split; [exists bd; auto |].
  unfold Nortek.decode_from.
  destruct (decode_all_total _ block (shadow st) (param_dict_decodable block Hlen))
    as (sh' & names & Hdec).
  rewrite Hdec.
  destruct (decode_all_lookup _ _ _ _ _ bd Hdec param_dict_names_NoDup Hbd)
    as (-> & v & Hv & Hsh).
  split; [reflexivity |].
  unfold Nortek.get. simpl. simpl in Hsh. rewrite Hsh.
  simpl in Hv. rewrite (slice_two 6 block _ _ H6 H7) in Hv.
  vm_compute in Hv. injection Hv as <-. reflexivity.
Qed.

Lemma blanking_distance_decoded_witness :
  Nortek.get Param.BLANKING_DISTANCE
    (Nortek.decode_from (@Protocol._build_param_dict Nortek.primitives)
       sample_block initial_state).1
  = Some (VInt 125).
Proof.
  pose proof (blanking_distance_decoded sample_block initial_state
                ltac:(vm_compute; lia) eq_refl eq_refl) as (_ & _ & H).
  destruct (Nortek.decode_from _ sample_block initial_state) as [st' r].
  exact (proj2 H).
Defined.

(** ** Decoders and encoders of the descriptors *)

Lemma ord_range c : 0 <= ord c < 256.
Proof.
  unfold ord. pose proof (Byte.to_N_bounded c). lia.
Qed.

Lemma chr_ord c : chr (ord c) = OK c.
Proof.
  unfold chr. rewrite decide_True by apply ord_range.
  unfold ord. rewrite N2Z.id, Byte.of_to_N. reflexivity.
Qed.

Lemma unhex_hex_digit n : 0 <= n < 16 → unhex_digit (hex_digit n) = Some n.
Proof.
  intros H.
  assert (n = 0 ∨ n = 1 ∨ n = 2 ∨ n = 3 ∨ n = 4 ∨ n = 5 ∨ n = 6 ∨ n = 7
          ∨ n = 8 ∨ n = 9 ∨ n = 10 ∨ n = 11 ∨ n = 12 ∨ n = 13 ∨ n = 14
          ∨ n = 15) as Hn by lia.
  repeat destruct Hn as [-> | Hn]; try subst n; reflexivity.
Qed.

(** Hex-decoding undoes hex-encoding. *)
Lemma decode_encode_hex (s : bytes) : decode_hex (encode_hex s) = OK s.
Proof.
  induction s as [| c s IH]; [reflexivity |].
  cbn [encode_hex decode_hex].
  pose proof (ord_range c) as Hc.
  rewrite !unhex_hex_digit
    by (split; [apply Z.div_pos || apply Z.mod_pos_bound
               | apply Z.div_lt_upper_bound || apply Z.mod_pos_bound]; lia).
  rewrite <- (Z.div_mod (ord c) 16) by lia.
  rewrite chr_ord, IH. reflexivity.
Qed.

(** Hex-encoding does not undo hex-decoding: upper-case digits decode, and
    encode back in lower case. *)
Lemma encode_decode_hex_upper :
  decode_hex [Byte.x41; Byte.x42; Byte.x31; Byte.x32] = OK [Byte.xab; Byte.x12]
  ∧ encode_hex [Byte.xab; Byte.x12] = [Byte.x61; Byte.x62; Byte.x31; Byte.x32].
Proof. split; reflexivity. Qed.

Lemma word_to_string_convert hi lo :
  Nortek.word_to_string (VInt (ord hi * 256 + ord lo)) = OK [hi; lo].
Proof.
  pose proof (ord_range hi). pose proof (ord_range lo).
  unfold Nortek.word_to_string. rewrite decide_True by lia.
  replace ((ord hi * 256 + ord lo) / 256) with (ord hi)
    by (apply Z.div_unique with (ord lo); lia).
  replace ((ord hi * 256 + ord lo) mod 256) with (ord lo)
    by (apply Z.mod_unique with (ord hi); lia).
  rewrite !chr_ord. reflexivity.
Qed.

Lemma double_word_to_string_convert b3 b2 b1 b0 :
  Nortek.double_word_to_string
    (VInt (((ord b3 * 256 + ord b2) * 256 + ord b1) * 256 + ord b0))
  = OK [b3; b2; b1; b0].
Proof.
  pose proof (ord_range b3). pose proof (ord_range b2).
  pose proof (ord_range b1). pose proof (ord_range b0).
  unfold Nortek.double_word_to_string. rewrite decide_True by lia.
  set (z := ((ord b3 * 256 + ord b2) * 256 + ord b1) * 256 + ord b0).
  assert (z / 16777216 = ord b3) as ->
    by (symmetry; apply Z.div_unique with ((ord b2 * 256 + ord b1) * 256 + ord b0);
        unfold z; lia).
  assert (z / 65536 = ord b3 * 256 + ord b2) as ->
    by (symmetry; apply Z.div_unique with (ord b1 * 256 + ord b0); unfold z; lia).
  assert (z / 256 = (ord b3 * 256 + ord b2) * 256 + ord b1) as ->
    by (symmetry; apply Z.div_unique with (ord b0); unfold z; lia).
  assert (z mod 256 = ord b0) as ->
    by (symmetry; apply Z.mod_unique with ((ord b3 * 256 + ord b2) * 256 + ord b1);
        unfold z; lia).
  assert ((ord b3 * 256 + ord b2) mod 256 = ord b2) as ->
    by (symmetry; apply Z.mod_unique with (ord b3); lia).
  assert (((ord b3 * 256 + ord b2) * 256 + ord b1) mod 256 = ord b1) as ->
    by (symmetry; apply Z.mod_unique with (ord b3 * 256 + ord b2); lia).
  rewrite !chr_ord. reflexivity.
Qed.

Lemma word_parameter_encodes_back name off type visibility display default units :
  encodes_back (@Protocol.word_parameter Nortek.primitives name off type
                  visibility display default units).
Proof.
  intros g v Hg Hv. simpl in *.
  destruct g as [| hi [| lo [| ? ?]]]; simpl in Hg; try lia.
  simpl in Hv. injection Hv as <-. apply word_to_string_convert.
Qed.

Lemma param_dict_encodes_back d :
  d ∈ @Protocol._build_param_dict Nortek.primitives →
  name d ≠ Param.CLOCK_DEPLOY →
  encodes_back d.
Proof.
  intros Hin Hname. unfold Protocol._build_param_dict in Hin.
  repeat (apply elem_of_cons in Hin as [-> | Hin];
          [first [ apply word_parameter_encodes_back
                 | exfalso; apply Hname; reflexivity
                 | idtac ] |]).
  - (* USER_2_SPARE *)
    intros g v _ Hv. simpl in *. injection Hv as <-. apply decode_encode_hex.
  - (* DIAGNOSTIC_INTERVAL *)
    intros g v Hg Hv. simpl in *.
    destruct g as [| b3 [| b2 [| b1 [| b0 [| ? ?]]]]]; simpl in Hg; try lia.
    simpl in Hv. injection Hv as <-. apply double_word_to_string_convert.
  - apply elem_of_nil in Hin as [].
Qed.

(** The decoder of CLOCK_DEPLOY is the datetime conversion and its encoder
    hands a string through: a string [s] comes back only if the conversion
    sends [s] to itself. *)
Lemma clock_deploy_decode_encode `{!NortekProtocolParameterDict} d s :
  d ∈ Protocol._build_param_dict →
  name d = Param.CLOCK_DEPLOY →
  f_format d (VStr s) = OK s ∧ f_getval d s = convert_words_to_datetime s.
Proof.
  intros Hin Hname. unfold Protocol._build_param_dict in Hin.
  repeat (apply elem_of_cons in Hin as [-> | Hin];
          [first [ discriminate Hname | split; reflexivity ] |]).
  apply elem_of_nil in Hin as [].
Qed.

(** Every other descriptor keeps the round trip: for every value [v] that
    its decoder reads from wire bytes of the locator's width, the encoder
    gives wire bytes of that width from which the decoder reads [v] again. *)
Lemma descriptor_round_trip (d : NortekParameterDictVal) (v : value) :
  d ∈ @Protocol._build_param_dict Nortek.primitives →
  name d ≠ Param.CLOCK_DEPLOY →
  (∃ g, length g = (pattern d).2 ∧ f_getval d g = OK v) →
  ∃ wire, f_format d v = OK wire
          ∧ length wire = (pattern d).2
          ∧ f_getval d wire = OK v.
Proof.
  intros Hin Hname (g & Hg & Hv).
  exists g. split; [| split; assumption].
  exact (param_dict_encodes_back d Hin Hname g v Hg Hv).
Qed.

(** C1: the round trip fails at CLOCK_DEPLOY.  Whatever the conversions
    are, its encoder writes a string as it is and its decoder is the
    datetime conversion, so a string comes back only where that conversion
    returns the very string it was given.  At the declared default value
    '000000' the encoder gives the six bytes 30 30 30 30 30 30, as wide as
    the field, and the decoder reads a date-time value from them, not the
    string. *)
Theorem clock_deploy_round_trip_fails :
  (∀ (P : NortekProtocolParameterDict) (d : NortekParameterDictVal) (s : bytes),
     d ∈ @Protocol._build_param_dict P →
     name d = Param.CLOCK_DEPLOY →
     f_format d (VStr s) = OK s
     ∧ (f_getval d s = OK (VStr s)
        ↔ @convert_words_to_datetime P s = OK (VStr s)))
  ∧ ∃ d,
      d ∈ @Protocol._build_param_dict Nortek.primitives
      ∧ name d = Param.CLOCK_DEPLOY
      ∧ default_value d = Some (VStr Protocol.six_zeros)
      ∧ f_format d (VStr Protocol.six_zeros) = OK Protocol.six_zeros
      ∧ length Protocol.six_zeros = (pattern d).2
      ∧ f_getval d Protocol.six_zeros = OK (VTimestamp Protocol.six_zeros)
      ∧ f_getval d Protocol.six_zeros ≠ OK (VStr Protocol.six_zeros).
Proof.
  split.
  - intros P d s Hin Hname.
    destruct (clock_deploy_decode_encode d s Hin Hname) as [Henc Hdec].
    split; [exact Henc |]. rewrite Hdec. reflexivity.
  - eexists. split.
    + unfold Protocol._build_param_dict.
      do 12 apply list_elem_of_further. apply list_elem_of_here.
    + simpl. repeat split. discriminate.
Qed.

(** ** The frame sieve *)

Lemma scan_unfold structs cursor buf :
  Nortek.scan structs cursor buf
  = match buf with
    | [] => Nortek.wait []
    | b :: buf' =>
        match Nortek.first_match structs buf with
        | Some s =>
            if decide (0 < s.2 ≤ length buf)%nat then
              Nortek.emit (s, take s.2 buf, cursor)
                (Nortek.scan structs (cursor + s.2) (drop s.2 buf))
            else Nortek.wait buf
        | None =>
            if Nortek.may_start structs buf then Nortek.wait buf
            else Nortek.discard (Nortek.scan structs (S cursor) buf')
        end
    end.
Proof.
  destruct buf as [| b buf']; simp scan; [reflexivity |].
  destruct (Nortek.first_match structs (b :: buf')) as [s |]; simpl.
  - destruct (decide _); reflexivity.
  - destruct (Nortek.may_start structs (b :: buf')); reflexivity.
Qed.

(** Induction on the length of the buffer. *)
Lemma buffer_ind (P : bytes → Prop) :
  (∀ buf, (∀ buf', (length buf' < length buf)%nat → P buf') → P buf) →
  ∀ buf, P buf.
Proof.
  intros step buf. remember (length buf) as n eqn:E. revert buf E.
  induction n as [n IH] using lt_wf_ind. intros buf ->.
  apply step. intros buf' Hlt. exact (IH _ Hlt buf' eq_refl).
Qed.

Lemma first_match_Some structs buf s :
  Nortek.first_match structs buf = Some s → s ∈ structs ∧ s.1 `prefix_of` buf.
Proof.
  induction structs as [| s0 structs IH]; simpl; [discriminate |].
  case_decide as Hp.
  - intros [= <-]. split; [apply list_elem_of_here | exact Hp].
  - intros H. destruct (IH H). split; [apply list_elem_of_further |]; assumption.
Qed.

Lemma first_match_None structs buf s :
  Nortek.first_match structs buf = None → s ∈ structs → ¬ s.1 `prefix_of` buf.
Proof.
  induction structs as [| s0 structs IH]; simpl; intros H Hin.
  - apply elem_of_nil in Hin as [].
  - case_decide as Hp; [discriminate |].
    apply elem_of_cons in Hin as [-> | Hin]; auto.
Qed.

Lemma may_start_false structs buf s :
  Nortek.may_start structs buf = false → s ∈ structs → ¬ buf `prefix_of` s.1.
Proof.
  unfold Nortek.may_start. intros H Hin Hp.
  assert (existsb (fun s : sample_structure => bool_decide (buf `prefix_of` s.1))
            structs = true) as E; [| congruence].
  apply existsb_exists. exists s. split; [apply list_elem_of_In, Hin |].
  apply bool_decide_eq_true_2, Hp.
Qed.

Lemma may_start_true structs buf :
  Nortek.may_start structs buf = true → ∃ s, s ∈ structs ∧ buf `prefix_of` s.1.
Proof.
  unfold Nortek.may_start. intros H.
  apply existsb_exists in H as (s & Hin & Hp).
  exists s. split; [apply list_elem_of_In, Hin | exact (bool_decide_eq_true_1 _ Hp)].
Qed.

(** A sync pattern that fits into the buffer stands at its head as soon as
    it stands at the head of the buffer with more data behind it. *)
Lemma prefix_app_fits (sync buf data : bytes) :
  (length sync ≤ length buf)%nat →
  sync `prefix_of` buf ++ data → sync `prefix_of` buf.
Proof.
  intros Hlen Hp.
  destruct (prefix_weak_total sync buf (buf ++ data) Hp (prefix_app_r _ _ _ (reflexivity _)))
    as [H | H]; [exact H |].
  rewrite (prefix_length_eq _ _ H Hlen). reflexivity.
Qed.

(** More data does not change which structure stands at the head of a
    buffer into which every sync pattern fits. *)
Lemma first_match_app structs buf data :
  (∀ s, s ∈ structs → length s.1 ≤ length buf)%nat →
  Nortek.first_match structs (buf ++ data) = Nortek.first_match structs buf.
Proof.
  induction structs as [| s0 structs IH]; intros Hfit; simpl; [reflexivity |].
  assert (Hfit0 := Hfit s0 (list_elem_of_here _ _)).
  destruct (decide (s0.1 `prefix_of` buf)) as [Hp | Hp].
  - rewrite decide_True by (apply prefix_app_r, Hp). reflexivity.
  - rewrite decide_False by (intros H; apply Hp, (prefix_app_fits _ _ data); assumption).
    apply IH. intros s Hs. apply Hfit, list_elem_of_further, Hs.
Qed.

(** A byte that is discarded stays discarded when more data arrives. *)
Lemma first_match_app_None structs buf data :
  Nortek.first_match structs buf = None →
  Nortek.may_start structs buf = false →
  Nortek.first_match structs (buf ++ data) = None
  ∧ Nortek.may_start structs (buf ++ data) = false.
Proof.
  intros Hnone Hstart. split.
  - destruct (Nortek.first_match structs (buf ++ data)) as [s |] eqn:E;
      [| reflexivity].
    apply first_match_Some in E as [Hin Hp]. exfalso.
    destruct (prefix_weak_total _ _ _ Hp (prefix_app_r buf buf data (reflexivity _)))
      as [H | H].
    + exact (first_match_None _ _ _ Hnone Hin H).
    + exact (may_start_false _ _ _ Hstart Hin H).
  - destruct (Nortek.may_start structs (buf ++ data)) eqn:E; [| reflexivity].
    apply may_start_true in E as (s & Hin & Hp). exfalso.
    apply (may_start_false _ _ _ Hstart Hin).
    exact (prefix_app_l _ _ _ Hp).
Qed.

Lemma VECTOR_SAMPLE_STRUCTURES_well_formed : well_formed VECTOR_SAMPLE_STRUCTURES.
Proof.
  intros s s' Hs Hs'. unfold VECTOR_SAMPLE_STRUCTURES in *.
  apply list_elem_of_singleton in Hs as ->.
  apply list_elem_of_singleton in Hs' as ->.
  simpl. unfold VELOCITY_DATA_LEN. lia.
Qed.

Lemma frames_of_emit frame r :
  Nortek.frames_of (Nortek.emit frame r) = frame.1 :: Nortek.frames_of r.
Proof. reflexivity. Qed.

(** The frames, the count of discarded bytes and the bytes left do not
    depend on the cursor; only the reported offsets do. *)
Lemma scan_cursor structs c c' buf :
  Nortek.frames_of (Nortek.scan structs c buf)
  = Nortek.frames_of (Nortek.scan structs c' buf)
  ∧ discarded (Nortek.scan structs c buf) = discarded (Nortek.scan structs c' buf)
  ∧ rest (Nortek.scan structs c buf) = rest (Nortek.scan structs c' buf).
Proof.
  revert c c'. induction buf as [buf IH] using buffer_ind. intros c c'.
  rewrite (scan_unfold structs c), (scan_unfold structs c').
  destruct buf as [| b buf']; [auto |].
  destruct (Nortek.first_match structs (b :: buf')) as [s |].
  - case_decide as Hlen; [| auto].
    destruct (IH (drop s.2 (b :: buf'))
                ltac:(rewrite length_drop; simpl in *; lia) (c + s.2)%nat (c' + s.2)%nat)
      as (Hf & Hd & Hr).
    split; [| split]; [| exact Hd | exact Hr].
    rewrite !frames_of_emit, Hf. reflexivity.
  - destruct (Nortek.may_start structs (b :: buf')); [auto |].
    destruct (IH buf' ltac:(simpl; lia) (S c) (S c')) as (Hf & Hd & Hr).
    split; [| split]; [exact Hf | exact (f_equal S Hd) | exact Hr].
Qed.

(** Scanning a buffer with more data behind it is scanning the buffer, and
    then scanning what it left with the data behind that. *)
Lemma scan_app structs c c' buf data :
  well_formed structs →
  let r := Nortek.scan structs c buf in
  let r' := Nortek.scan structs c' (rest r ++ data) in
  Nortek.frames_of (Nortek.scan structs c (buf ++ data))
  = Nortek.frames_of r ++ Nortek.frames_of r'
  ∧ discarded (Nortek.scan structs c (buf ++ data))
    = (discarded r + discarded r')%nat
  ∧ rest (Nortek.scan structs c (buf ++ data)) = rest r'.
Proof.
  intros Hwf. revert c c'. induction buf as [buf IH] using buffer_ind.
  intros c c'. cbv zeta.
  rewrite (scan_unfold structs c buf).
  destruct buf as [| b buf'].
  { simpl. apply scan_cursor. }
  destruct (Nortek.first_match structs (b :: buf')) as [s |] eqn:Ematch.
  - case_decide as Hlen; [| simpl; apply scan_cursor].
    apply first_match_Some in Ematch as Hs. destruct Hs as [Hin _].
    rewrite (scan_unfold structs c ((b :: buf') ++ data)).
    change ((b :: buf') ++ data) with (b :: (buf' ++ data)) at 1.
    cbv iota.
    change (b :: (buf' ++ data)) with ((b :: buf') ++ data).
    rewrite first_match_app, Ematch
      by (intros s' Hs'; specialize (Hwf s s' Hin Hs'); lia).
    rewrite decide_True by (rewrite length_app; lia).
    rewrite take_app_le, drop_app_le by lia.
    destruct (IH (drop s.2 (b :: buf'))
                ltac:(rewrite length_drop; simpl in *; lia) (c + s.2)%nat c')
      as (Hf & Hd & Hr).
    split; [| split]; [| exact Hd | exact Hr].
    rewrite !frames_of_emit, Hf. reflexivity.
  - destruct (Nortek.may_start structs (b :: buf')) eqn:Estart;
      [simpl; apply scan_cursor |].
    destruct (first_match_app_None structs (b :: buf') data Ematch Estart)
      as [Ematch' Estart'].
    rewrite (scan_unfold structs c ((b :: buf') ++ data)).
    change ((b :: buf') ++ data) with (b :: (buf' ++ data)) at 1.
    cbv iota.
    change (b :: (buf' ++ data)) with ((b :: buf') ++ data).
    rewrite Ematch', Estart'.
    destruct (IH buf' ltac:(simpl; lia) (S c) c') as (Hf & Hd & Hr).
    split; [| split]; [exact Hf | exact (f_equal S Hd) | exact Hr].
Qed.

(** Every reported frame is a whole structure of the table, cut out of the
    buffer at the offset reported for it. *)
Lemma scan_frames structs c buf s fr off :
  (s, fr, off) ∈ frames (Nortek.scan structs c buf) →
  s ∈ structs
  ∧ (c ≤ off)%nat ∧ (off + s.2 ≤ c + length buf)%nat
  ∧ fr = take s.2 (drop (off - c) buf).
Proof.
  revert c. induction buf as [buf IH] using buffer_ind. intros c.
  rewrite scan_unfold. destruct buf as [| b buf'].
  { intros H. apply elem_of_nil in H as []. }
  destruct (Nortek.first_match structs (b :: buf')) as [s0 |] eqn:Ematch.
  - case_decide as Hlen; [| intros H; apply elem_of_nil in H as []].
    apply first_match_Some in Ematch as [Hin0 _].
    intros H. apply elem_of_cons in H as [[= -> -> ->] | H].
    + rewrite Nat.sub_diag. simpl drop.
      repeat split; try assumption; lia.
    + apply IH in H as (Hin & Hc & Hoff & ->);
        [| rewrite length_drop; simpl in *; lia].
      rewrite length_drop in Hoff.
      repeat split; try assumption; try lia.
      rewrite drop_drop. f_equal. f_equal. lia.
  - destruct (Nortek.may_start structs (b :: buf'));
      [intros H; apply elem_of_nil in H as [] |].
    intros H. change (frames (Nortek.discard ?r)) with (frames r) in H.
    apply IH in H as (Hin & Hc & Hoff & ->); [| simpl; lia].
    simpl in *. repeat split; try assumption; try lia.
    replace (off - c)%nat with (S (off - S c)) by lia. reflexivity.
Qed.

(** The frames are reported in the order of the stream, none overlapping
    the one before. *)
Lemma scan_frames_ordered structs c buf i j si fri offi sj frj offj :
  (i < j)%nat →
  frames (Nortek.scan structs c buf) !! i = Some (si, fri, offi) →
  frames (Nortek.scan structs c buf) !! j = Some (sj, frj, offj) →
  (offi + si.2 ≤ offj)%nat.
Proof.
  revert c i j. induction buf as [buf IH] using buffer_ind. intros c i j Hij.
  rewrite scan_unfold. destruct buf as [| b buf']; [discriminate |].
  destruct (Nortek.first_match structs (b :: buf')) as [s0 |].
  - case_decide as Hlen; [| discriminate].
    destruct j as [| j]; [lia |].
    destruct i as [| i]; simpl.
    + intros [= <- <- <-] Hj.
      apply list_elem_of_lookup_2, scan_frames in Hj. lia.
    + apply IH; [rewrite length_drop; simpl in *; lia | lia].
  - destruct (Nortek.may_start structs (b :: buf')); [discriminate |].
    change (frames (Nortek.discard ?r)) with (frames r).
    apply IH; [simpl; lia | lia].
Qed.

(** The sieve of the protocol is the scan with the velocity structure. *)
Lemma protocol_sieve ack raw_data add_structs :
  @Protocol.chunker_sieve_function (Nortek.protocol ack) raw_data add_structs
  = Nortek.scan VECTOR_SAMPLE_STRUCTURES 0 raw_data.
Proof. reflexivity. Qed.

(** Feeding chunk after chunk reports the frames of the whole stream. *)
Lemma feed_all_scan structs buffer chunks :
  well_formed structs →
  let sieve := fun raw _ => Nortek.scan structs 0 raw in
  let r := Nortek.scan structs 0 buffer in
  Nortek.frames_of r ++ concat (Nortek.feed_all sieve (rest r) chunks).1
  = Nortek.frames_of (Nortek.scan structs 0 (buffer ++ concat chunks))
  ∧ (Nortek.feed_all sieve (rest r) chunks).2
    = rest (Nortek.scan structs 0 (buffer ++ concat chunks)).
Proof.
  intros Hwf sieve. revert buffer.
  induction chunks as [| data chunks IH]; intros buffer r; simpl.
  - rewrite !app_nil_r. auto.
  - destruct (scan_app structs 0 0 buffer data Hwf) as (Hf & _ & Hr).
    fold r in Hf, Hr.
    change (Nortek.feed sieve (rest r) data)
      with (Nortek.scan structs 0 (rest r ++ data)).
    rewrite <- Hr.
    specialize (IH (buffer ++ data)). cbv zeta in IH.
    destruct (Nortek.feed_all sieve _ chunks) as [reported buffer'].
    simpl in *. rewrite <- (assoc_L (++)) in IH. destruct IH as [IHf IHr].
    split; [| exact IHr].
    rewrite (assoc_L (++)), <- Hf. exact IHf.
Qed.

(** C6: whatever the bytes and however they are cut into chunks, the frames
    that the calls of [feed] report, taken in order, are the frames that one
    call reports for the whole sequence, and the same bytes stay buffered.
    Each frame is the 42 bytes of the sequence at its offset, and a frame
    reported later starts behind the end of every frame reported before. *)
Theorem sieve_split_invariant
  (ack : list (string * bytes) -> bool) (chunks : list bytes) :
  let sieve := @Protocol.chunker_sieve_function (Nortek.protocol ack) in
  let whole := Nortek.feed sieve [] (concat chunks) in
  concat (Nortek.feed_all sieve [] chunks).1 = Nortek.frames_of whole
  ∧ (Nortek.feed_all sieve [] chunks).2 = rest whole
  ∧ (∀ s fr off, (s, fr, off) ∈ frames whole →
       s = (VELOCITY_HEADER_DATA_SYNC_BYTES, VELOCITY_DATA_LEN)
       ∧ fr = take 42 (drop off (concat chunks)) ∧ length fr = 42%nat)
  ∧ (∀ i j si fri offi sj frj offj,
       (i < j)%nat →
       frames whole !! i = Some (si, fri, offi) →
       frames whole !! j = Some (sj, frj, offj) →
       (offi + length fri ≤ offj)%nat).
Proof.
  intros sieve whole.
  assert (Hwhole : whole = Nortek.scan VECTOR_SAMPLE_STRUCTURES 0 (concat chunks))
    by reflexivity.
  assert (Hframe : ∀ s fr off, (s, fr, off) ∈ frames whole →
            s = (VELOCITY_HEADER_DATA_SYNC_BYTES, VELOCITY_DATA_LEN)
            ∧ fr = take 42 (drop off (concat chunks)) ∧ length fr = 42%nat).
  { intros s fr off H. rewrite Hwhole in H.
    apply scan_frames in H as (Hin & _ & Hoff & ->).
    apply list_elem_of_singleton in Hin as ->. simpl in *.
    unfold VELOCITY_DATA_LEN in *. rewrite Nat.sub_0_r.
    repeat split. rewrite length_take, length_drop. lia. }
  split; [| split; [| split]].
  - destruct (feed_all_scan VECTOR_SAMPLE_STRUCTURES [] chunks
                VECTOR_SAMPLE_STRUCTURES_well_formed) as [H _].
    exact H.
  - destruct (feed_all_scan VECTOR_SAMPLE_STRUCTURES [] chunks
                VECTOR_SAMPLE_STRUCTURES_well_formed) as [_ H].
    exact H.
  - exact Hframe.
  - intros i j si fri offi sj frj offj Hij Hi Hj.
    destruct (Hframe si fri offi (list_elem_of_lookup_2 _ _ _ Hi)) as (-> & _ & ->).
    rewrite Hwhole in Hi, Hj.
    exact (scan_frames_ordered _ _ _ _ _ _ _ _ _ _ _ Hij Hi Hj).
Qed.

(** A buffer that starts with the sync bytes and is shorter than a frame is
    kept whole, and nothing is reported. *)
Lemma scan_incomplete c buf :
  VELOCITY_HEADER_DATA_SYNC_BYTES `prefix_of` buf →
  (length buf < 42)%nat →
  Nortek.scan VECTOR_SAMPLE_STRUCTURES c buf = Nortek.wait buf.
Proof.
  intros Hp Hlen. rewrite scan_unfold.
  destruct buf as [| b buf']; [reflexivity |].
  unfold VECTOR_SAMPLE_STRUCTURES, Nortek.first_match.
  rewrite decide_True by exact Hp.
  rewrite decide_False by (simpl in *; unfold VELOCITY_DATA_LEN; lia).
  reflexivity.
Qed.

(** A buffer that starts with the sync bytes and holds a whole frame gives
    that frame, and the scan goes on behind it. *)
Lemma scan_complete c buf :
  VELOCITY_HEADER_DATA_SYNC_BYTES `prefix_of` buf →
  (42 ≤ length buf)%nat →
  Nortek.scan VECTOR_SAMPLE_STRUCTURES c buf
  = Nortek.emit
      ((VELOCITY_HEADER_DATA_SYNC_BYTES, VELOCITY_DATA_LEN), take 42 buf, c)
      (Nortek.scan VECTOR_SAMPLE_STRUCTURES (c + 42) (drop 42 buf)).
Proof.
  intros Hp Hlen. rewrite scan_unfold.
  destruct buf as [| b buf']; [simpl in Hlen; lia |].
  unfold VECTOR_SAMPLE_STRUCTURES at 1, Nortek.first_match.
  rewrite decide_True by exact Hp.
  rewrite decide_True by (simpl in *; unfold VELOCITY_DATA_LEN; lia).
  reflexivity.
Qed.

(** C2: the sync bytes A5 01 and 40 payload bytes, fed as 10 bytes and then
    32 bytes: the first call reports nothing and keeps the 10 bytes, the
    second reports the one frame of 42 bytes and leaves nothing.  In
    general a buffer that starts with the sync bytes and is shorter than a
    frame is kept and reports nothing, the frame is reported by the call
    that brings its last byte, and no reported frame is shorter than 42
    bytes. *)
Theorem sieve_waits_for_whole_frame
  (ack : list (string * bytes) -> bool) (payload : bytes) :
  length payload = 40%nat →
  let sieve := @Protocol.chunker_sieve_function (Nortek.protocol ack) in
  let stream := VELOCITY_HEADER_DATA_SYNC_BYTES ++ payload in
  let first := Nortek.feed sieve [] (take 10 stream) in
  let second := Nortek.feed sieve (rest first) (drop 10 stream) in
  (frames first = [] ∧ rest first = take 10 stream
   ∧ frames second
     = [((VELOCITY_HEADER_DATA_SYNC_BYTES, VELOCITY_DATA_LEN), stream, 0%nat)]
   ∧ length stream = 42%nat ∧ rest second = [])
  ∧ (∀ buf data,
       VELOCITY_HEADER_DATA_SYNC_BYTES `prefix_of` buf →
       (length buf < 42)%nat →
       frames (Nortek.feed sieve [] buf) = []
       ∧ rest (Nortek.feed sieve [] buf) = buf
       ∧ ((length (buf ++ data) < 42)%nat →
          frames (Nortek.feed sieve buf data) = [])
       ∧ ((42 ≤ length (buf ++ data))%nat →
          frames (Nortek.feed sieve buf data) !! 0%nat
          = Some ((VELOCITY_HEADER_DATA_SYNC_BYTES, VELOCITY_DATA_LEN),
                  take 42 (buf ++ data), 0%nat)))
  ∧ (∀ buffer data s fr off,
       (s, fr, off) ∈ frames (Nortek.feed sieve buffer data) → length fr = 42%nat).
Proof.
  intros Hpay sieve stream first second.
  assert (Hfeed : ∀ buffer data,
    Nortek.feed sieve buffer data
    = Nortek.scan VECTOR_SAMPLE_STRUCTURES 0 (buffer ++ data)) by reflexivity.
  assert (Hstream : length stream = 42%nat)
    by (unfold stream; rewrite length_app, Hpay; reflexivity).
  assert (Hfirst : first = Nortek.wait (take 10 stream)).
  { unfold first. rewrite Hfeed. simpl app. apply scan_incomplete.
    - unfold stream. exists (take 8 payload). reflexivity.
    - rewrite length_take. lia. }
  assert (Hsecond : second
    = Nortek.emit
        ((VELOCITY_HEADER_DATA_SYNC_BYTES, VELOCITY_DATA_LEN), stream, 0%nat)
        (Nortek.wait [])).
  { unfold second. rewrite Hfirst.
    change (rest (Nortek.wait (take 10 stream))) with (take 10 stream).
    rewrite Hfeed, take_drop.
    rewrite scan_complete by first [exists payload; reflexivity | lia].
    rewrite take_ge, drop_ge by lia.
    rewrite (scan_unfold _ _ []). reflexivity. }
  split; [| split].
  - rewrite Hfirst, Hsecond. repeat split. exact Hstream.
  - intros buf data Hp Hlen. rewrite !Hfeed. simpl app.
    rewrite scan_incomplete by assumption.
    split; [reflexivity |]. split; [reflexivity |]. split.
    + intros Hshort.
      rewrite scan_incomplete by first [apply prefix_app_r, Hp | assumption].
      reflexivity.
    + intros Hlong.
      rewrite scan_complete by first [apply prefix_app_r, Hp | assumption].
      reflexivity.
  - intros buffer data s fr off H. rewrite Hfeed in H.
    apply scan_frames in H as (Hin & _ & Hoff & ->).
    apply list_elem_of_singleton in Hin as ->. simpl in *.
    unfold VELOCITY_DATA_LEN in *.
    rewrite length_take, length_drop. lia.
Qed.

Lemma sieve_waits_for_whole_frame_witness :
  let sieve := @Protocol.chunker_sieve_function (Nortek.protocol (fun _ => true)) in
  let stream := VELOCITY_HEADER_DATA_SYNC_BYTES ++ replicate 40 Byte.x2a in
  frames (Nortek.feed sieve [] (take 10 stream)) = []
  ∧ frames (Nortek.feed sieve (take 10 stream) (drop 10 stream))
    = [((VELOCITY_HEADER_DATA_SYNC_BYTES, VELOCITY_DATA_LEN), stream, 0%nat)].
Proof.
  destruct (sieve_waits_for_whole_frame (fun _ => true) (replicate 40 Byte.x2a)
              eq_refl) as ((H1 & H2 & H3 & _) & _).
  cbv zeta. split; [exact H1 |].
  rewrite H2 in H3. exact H3.
Defined.

(** ** The set command *)

Section SetCommand.
Context (ack : list (string * bytes) -> bool).


Lemma validate_refused d v st :
  refused d st →
  Nortek.validate d v st = Raise (InstrumentParameterException (name d)).
Proof.
  unfold Nortek.validate. intros [Hro | Him].
  - rewrite decide_True by exact Hro. reflexivity.
  - case_decide; [reflexivity |]. rewrite decide_True by exact Him. reflexivity.
Qed.

(** One set request leaves the connection state and the log alone; it adds
    at most one write, for its own parameter, and changes at most the shadow
    value of its own parameter. *)
Lemma set_one_frame d v st :
  let '(st', r) := Nortek.set_one ack d v st in
  conn_state st' = conn_state st
  ∧ debug_log st' = debug_log st
  ∧ (∃ new, wire st' = wire st ++ new ∧ ∀ w, w ∈ new → w.1 = name d)
  ∧ ∀ n, n ≠ name d → shadow st' !! n = shadow st !! n.
Proof.
  unfold Nortek.set_one.
  destruct (Nortek.validate d v st) as [wire_bytes | e].
  - destruct (ack _); simpl; repeat split.
    + exists [(name d, wire_bytes)]. split; [reflexivity |].
      intros w Hw. apply list_elem_of_singleton in Hw as ->. reflexivity.
    + intros n Hn. apply lookup_insert_ne. congruence.
    + exists [(name d, wire_bytes)]. split; [reflexivity |].
      intros w Hw. apply list_elem_of_singleton in Hw as ->. reflexivity.
  - repeat split. exists []. split; [symmetry; apply app_nil_r |].
    intros w Hw. apply elem_of_nil in Hw as [].
Qed.

(** A batch that names a refused parameter fails, and neither writes that
    parameter nor changes its shadow value. *)
Lemma set_batch_refused ds params d v st :
  NoDup (name <$> ds) →
  d ∈ ds →
  params !! name d = Some v →
  refused d st →
  let '(st', r) := Nortek.set_batch ack ds params st in
  (∃ e, r = Raise e)
  ∧ shadow st' !! name d = shadow st !! name d
  ∧ ∃ new, wire st' = wire st ++ new ∧ ∀ w, w ∈ new → w.1 ≠ name d.
Proof.
  intros Hnd Hin Hv. revert st.
  induction ds as [| d0 ds IH]; intros st Href.
  { apply elem_of_nil in Hin as []. }
  rewrite fmap_cons in Hnd. apply NoDup_cons in Hnd as [Hfresh Hnd].
  simpl. apply elem_of_cons in Hin as [<- | Hin].
  - rewrite Hv. unfold Nortek.set_one. rewrite validate_refused by exact Href.
    split; [eauto |]. split; [reflexivity |].
    exists []. split; [symmetry; apply app_nil_r |].
    intros w Hw. apply elem_of_nil in Hw as [].
  - assert (Hne : name d ≠ name d0).
    { intros E. apply Hfresh. rewrite <- E. apply list_elem_of_fmap_2, Hin. }
    destruct (params !! name d0) as [v0 |]; [| exact (IH Hnd Hin st Href)].
    pose proof (set_one_frame d0 v0 st) as Hone.
    destruct (Nortek.set_one ack d0 v0 st) as [st1 [[] | e]].
    + destruct Hone as (Hconn & _ & (new1 & Hw1 & Hnew1) & Hsh1).
      assert (Href1 : refused d st1) by (unfold refused in *; rewrite Hconn; exact Href).
      specialize (IH Hnd Hin st1 Href1).
      destruct (Nortek.set_batch ack ds params st1) as [st' r].
      destruct IH as (He & Hsh & new & Hw & Hnew).
      split; [exact He |]. split; [rewrite Hsh; apply Hsh1, Hne |].
      exists (new1 ++ new). split; [rewrite Hw, Hw1, (assoc_L (++)); reflexivity |].
      intros w Hin'. apply elem_of_app in Hin' as [H1 | H2].
      * rewrite (Hnew1 w H1). congruence.
      * exact (Hnew w H2).
    + destruct Hone as (_ & _ & (new1 & Hw1 & Hnew1) & Hsh1).
      split; [eauto |]. split; [apply Hsh1, Hne |].
      exists new1. split; [exact Hw1 |].
      intros w H1. rewrite (Hnew1 w H1). congruence.
Qed.

End SetCommand.

(** A batch of one refused parameter raises for it and changes nothing. *)
Lemma set_batch_single_refused ack ds d v st :
  NoDup (name <$> ds) →
  d ∈ ds →
  refused d st →
  Nortek.set_batch ack ds {[name d := v]} st
  = (st, Raise (InstrumentParameterException (name d))).
Proof.
  intros Hnd Hin Href.
  induction ds as [| d0 ds IH]; [apply elem_of_nil in Hin as [] |].
  rewrite fmap_cons in Hnd. apply NoDup_cons in Hnd as [Hfresh Hnd].
  simpl. apply elem_of_cons in Hin as [<- | Hin].
  - rewrite lookup_singleton_eq. unfold Nortek.set_one.
    rewrite validate_refused by exact Href. reflexivity.
  - rewrite lookup_singleton_ne; [exact (IH Hnd Hin) |].
    intros E. apply Hfresh. rewrite <- E. apply list_elem_of_fmap_2, Hin.
Qed.

Lemma unknown_names_single dict d v :
  d ∈ dict → Nortek.unknown_names dict {[name d := v]} = [].
Proof.
  intros Hin. unfold Nortek.unknown_names.
  rewrite map_to_list_singleton. simpl.
  rewrite filter_cons_False; [reflexivity |].
  intros Hn. apply Hn, list_elem_of_fmap_2, Hin.
Qed.

(** C5: in the COMMAND state a set command that names an immutable or a
    read-only parameter fails, issues no write for that parameter and leaves
    its shadow value as it was; a set command of that parameter alone fails
    with InstrumentParameterException (the ParameterError of the
    specification) naming it, and changes no shadow value at all. *)
Theorem immutable_parameter_set_refused
  (ack : list (string * bytes) -> bool) (d : NortekParameterDictVal)
  (v : value) (params : gmap string value) (others : list pyobj)
  (st : protocol_state) :
  d ∈ @Protocol._build_param_dict Nortek.primitives →
  visibility d = IMMUTABLE ∨ visibility d = READ_ONLY →
  conn_state st = COMMAND →
  params !! name d = Some v →
  let '(st', r) :=
    @Protocol._handler_command_set (Nortek.protocol ack) (PDict params :: others) st in
  (∃ e, r = Raise e)
  ∧ shadow st' !! name d = shadow st !! name d
  ∧ (∃ new, wire st' = wire st ++ new ∧ ∀ w, w ∈ new → w.1 ≠ name d)
  ∧ (params = {[name d := v]} →
     r = Raise (InstrumentParameterException (name d))
     ∧ shadow st' = shadow st ∧ wire st' = wire st).
Proof.
  intros Hin Hvis Hconn Hv.
  rewrite handler_dict. cbv zeta.
  destruct (at_set_params_frame params st) as (Hc0 & Hs0 & Hw0).
  set (st0 := at_set_params params st) in *.
  assert (Href : refused d st0).
  { unfold refused. rewrite Hc0, Hconn.
    destruct Hvis as [-> | ->]; [right; split; [reflexivity | discriminate] | left; reflexivity]. }
  change (_set_params params _ st0)
    with (Nortek._set_params Protocol._build_param_dict ack params
            (default (PVal (VBool false)) (others !! 0%nat)) st0).
  unfold Nortek._set_params.
  destruct (Nortek.unknown_names _ params) as [| n ns] eqn:Eunknown.
  - pose proof (set_batch_refused ack _ params d v st0
                  param_dict_names_NoDup Hin Hv Href) as Hbatch.
    pose proof (set_batch_single_refused ack _ d v st0
                  param_dict_names_NoDup Hin Href) as Hsingle.
    destruct (Nortek.set_batch ack _ params st0) as [st' r] eqn:Ebatch.
    destruct Hbatch as ((e & ->) & Hsh & new & Hw & Hnew).
    rewrite Hs0 in Hsh. rewrite Hw0 in Hw.
    split; [eauto |]. split; [exact Hsh |]. split; [eauto |].
    intros ->. rewrite Hsingle in Ebatch. injection Ebatch as <- <-.
    auto.
  - split; [eauto |]. split; [rewrite Hs0; reflexivity |]. split.
    + exists []. split; [rewrite Hw0; symmetry; apply app_nil_r |].
      intros w Hw. apply elem_of_nil in Hw as [].
    + intros ->. rewrite unknown_names_single in Eunknown by exact Hin.
      discriminate.
Qed.

(** Scenario C: set("P", 500) on TRANSMIT_PULSE_LENGTH in the COMMAND
    state. *)
Lemma immutable_parameter_set_refused_witness :
  let '(st', r) :=
    @Protocol._handler_command_set (Nortek.protocol (fun _ => true))
      [PDict {[Param.TRANSMIT_PULSE_LENGTH := VInt 500]}] initial_state in
  r = Raise (InstrumentParameterException Param.TRANSMIT_PULSE_LENGTH)
  ∧ shadow st' = shadow initial_state.
Proof.
  pose proof (immutable_parameter_set_refused (fun _ => true)
    (@Protocol.word_parameter Nortek.primitives Param.TRANSMIT_PULSE_LENGTH 4
       INT IMMUTABLE "transmit pulse length" 125 (Some CENTIMETERS))
    (VInt 500) {[Param.TRANSMIT_PULSE_LENGTH := VInt 500]} [] initial_state
    ltac:(apply list_elem_of_here) (or_introl eq_refl) eq_refl
    ltac:(apply lookup_singleton_eq)) as H.
  destruct (Protocol._handler_command_set _ initial_state) as [st' r].
  destruct H as (_ & _ & _ & H).
  destruct (H eq_refl) as (Hr & Hsh & _). split; assumption.
Defined.



(** A batch of two parameters in front of a device that acknowledges the
    first write only: the second parameter is reported, the first stays
    committed. *)
Example partial_batch :
  let params : gmap string value :=
    {[Param.AVG_INTERVAL := VInt 5; Param.BLANKING_DISTANCE := VInt 60]} in
  let ack := fun w : list (string * bytes) => bool_decide (length w = 1%nat) in
  let '(st', r) :=
    @Protocol._handler_command_set (Nortek.protocol ack) [PDict params]
      initial_state in
  r = Raise (InstrumentTimeoutException Param.AVG_INTERVAL)
  ∧ shadow st' !! Param.BLANKING_DISTANCE = Some (VInt 60)
  ∧ shadow st' !! Param.AVG_INTERVAL = None
  ∧ wire st' = [(Param.BLANKING_DISTANCE, [Byte.x00; Byte.x3c]);
                (Param.AVG_INTERVAL, [Byte.x00; Byte.x05])].
Proof. vm_compute. repeat split. Qed.

(** A batch that the device acknowledges returns (None, None). *)
Example acknowledged_batch :
  let '(st', r) :=
    @Protocol._handler_command_set (Nortek.protocol (fun _ => true))
      [PDict {[Param.BLANKING_DISTANCE := VInt 60]}] initial_state in
  r = OK (VNone, VNone) ∧ shadow st' !! Param.BLANKING_DISTANCE = Some (VInt 60).
Proof. vm_compute. repeat split. Qed.

Lemma handler_command_set_arguments_witness :
  ∃ st',
    @Protocol._handler_command_set (Nortek.protocol (fun _ => true))
      [PDict {[Param.BLANKING_DISTANCE := VInt 60]}] initial_state
    = (st', OK (VNone, VNone)).
Proof.
  destruct (@Protocol._handler_command_set (Nortek.protocol (fun _ => true))
              [PDict {[Param.BLANKING_DISTANCE := VInt 60]}] initial_state)
    as [st' [r | e]] eqn:E.
  - exists st'.
    destruct (@handler_command_set_arguments (Nortek.protocol (fun _ => true))
                initial_state) as (_ & _ & _ & H & _).
    rewrite (H _ _ _ E). reflexivity.
  - vm_compute in E. discriminate E.
Defined.

Lemma sieve_split_invariant_witness :
  concat (Nortek.feed_all
            (@Protocol.chunker_sieve_function (Nortek.protocol (fun _ => true)))
            [] sample_chunks).1
  = [((VELOCITY_HEADER_DATA_SYNC_BYTES, VELOCITY_DATA_LEN), sample_frame)]
  ∧ (Nortek.feed_all
       (@Protocol.chunker_sieve_function (Nortek.protocol (fun _ => true)))
       [] sample_chunks).2
    = [Byte.xa5; Byte.x01; Byte.x02].
Proof.
  destruct (sieve_split_invariant (fun _ => true) sample_chunks)
    as (Hframes & Hrest & _).
  rewrite Hframes, Hrest. vm_compute. split; reflexivity.
Defined.

(** * Further properties of the driver *)

(** ** The velocity data particle: all fields *)

Lemma slice_take n off w (s : bytes) :
  (off + w ≤ n)%nat → slice off w (take n s) = slice off w s.
Proof.
  intros H. unfold slice.
  rewrite !take_drop_commute, take_take.
  replace ((off + w) `min` n)%nat with (off + w)%nat by lia. reflexivity.
Qed.

Lemma particle_value_is_Some key (p : particle) :
  is_Some (particle_value key p) ↔ key ∈ p.*1.
Proof.
  induction p as [| [k v] p IH]; simpl.
  - split; [intros [? ?]; discriminate | intros H; apply elem_of_nil in H as []].
  - case_decide as Hk.
    + subst k. split; [intros _; apply list_elem_of_here | eauto].
    + rewrite IH, elem_of_cons.
      split; [auto | intros [? | ?]; [congruence | assumption]].
Qed.

(** X1: in every string that the extractor accepts, each of the eleven
    fields error code, analog input, battery voltage, sound speed, heading,
    pitch, roll, temperature and the three beam velocities is the
    word-to-int conversion of the two bytes at its offset in the frame. *)
Theorem velocity_particle_word_fields
  `{!NortekProtocolParameterDict} (raw : bytes) (p : particle)
  (key : string) (off : nat) :
  AquadoppDwVelocityDataParticle._build_parsed_values raw = OK p →
  (key, off) ∈ word_fields →
  ∃ z, convert_word_to_int (slice off 2 raw) = OK z
       ∧ particle_value key p = Some (VInt z).
Proof.
  intros Hp Hin.
  apply build_parsed_values_explicit in Hp as [_ Hp].
  apply build_particle_explicit in Hp
    as (ts & e & a1 & bv & ss & hd & pt & rl & msb & st & lsw & tmp & v1 & v2
        & v3 & am1 & am2 & am3
        & (_ & He & Ha1 & Hbv & Hss & Hhd & Hpt & Hrl)
        & (_ & _ & _ & Htmp & Hv1 & Hv2 & Hv3) & _ & ->).
  unfold word_fields in Hin.
  repeat (apply elem_of_cons in Hin as [[= -> ->] | Hin];
          [eexists; split; [eassumption | reflexivity] |]).
  apply elem_of_nil in Hin as [].
Qed.

Lemma velocity_particle_word_fields_witness :
  ∃ p,
    AquadoppDwVelocityDataParticle._build_parsed_values counting_frame = OK p
    ∧ particle_value AquadoppDwVelocityDataParticleKey.HEADING p
      = Some (VInt 4113).
Proof.
  destruct (AquadoppDwVelocityDataParticle._build_parsed_values counting_frame)
    as [p | e] eqn:E; [| vm_compute in E; discriminate E].
  exists p. split; [reflexivity |].
  destruct (@velocity_particle_word_fields Nortek.primitives counting_frame p
              AquadoppDwVelocityDataParticleKey.HEADING 16%nat E
              ltac:(do 4 apply list_elem_of_further; apply list_elem_of_here))
    as (z & Hz & Hp).
  vm_compute in Hz. injection Hz as <-. exact Hp.
Defined.

(** X2: a built particle has the seventeen keys of the velocity particle,
    each once and in the order of the driver (the status before the
    pressure), so a key has a value in it exactly when it is one of them. *)
Theorem velocity_particle_keys
  `{!NortekProtocolParameterDict} (raw : bytes) (p : particle) :
  AquadoppDwVelocityDataParticle._build_parsed_values raw = OK p →
  p.*1 = velocity_keys
  ∧ NoDup p.*1
  ∧ ∀ key, is_Some (particle_value key p) ↔ key ∈ velocity_keys.
Proof.
  intros Hp.
  apply build_parsed_values_explicit in Hp as [_ Hp].
  apply build_particle_explicit in Hp
    as (ts & e & a1 & bv & ss & hd & pt & rl & msb & st & lsw & tmp & v1 & v2
        & v3 & am1 & am2 & am3 & _ & _ & _ & ->).
  split; [reflexivity |]. split.
  - apply (bool_decide_unpack _). vm_compute. reflexivity.
  - intros key. apply particle_value_is_Some.
Qed.

Lemma velocity_particle_keys_witness :
  ∃ p, AquadoppDwVelocityDataParticle._build_parsed_values sample_frame = OK p
       ∧ p.*1 = velocity_keys.
Proof.
  destruct (AquadoppDwVelocityDataParticle._build_parsed_values sample_frame)
    as [p | e] eqn:E; [| vm_compute in E; discriminate E].
  exists p. split; [reflexivity |].
  exact (proj1 (@velocity_particle_keys Nortek.primitives sample_frame p E)).
Defined.

(** X3: the particle is read from the first 37 bytes alone.  Of two
    strings of at least forty bytes that agree there, either both match the
    pattern, and then they give the same result (the same particle, or the
    same exception of a conversion primitive), whatever their last three
    pattern bytes and whatever follows; or neither matches, and then each
    raises the SampleException of the extractor with its own raw data. *)
Theorem velocity_particle_ignores_tail
  `{!NortekProtocolParameterDict} (raw1 raw2 : bytes) :
  (40 ≤ length raw1)%nat →
  (40 ≤ length raw2)%nat →
  take 37 raw1 = take 37 raw2 →
  (is_Some (VELOCITY_DATA_REGEX raw1)
   ∧ is_Some (VELOCITY_DATA_REGEX raw2)
   ∧ AquadoppDwVelocityDataParticle._build_parsed_values raw1
     = AquadoppDwVelocityDataParticle._build_parsed_values raw2)
  ∨ (VELOCITY_DATA_REGEX raw1 = None
     ∧ VELOCITY_DATA_REGEX raw2 = None
     ∧ AquadoppDwVelocityDataParticle._build_parsed_values raw1
       = Raise (SampleException AquadoppDwVelocityDataParticle.no_regex_match
                  [raw1])
     ∧ AquadoppDwVelocityDataParticle._build_parsed_values raw2
       = Raise (SampleException AquadoppDwVelocityDataParticle.no_regex_match
                  [raw2])).
Proof.
  intros Hlen1 Hlen2 Heq.
  assert (Hs : ∀ off w, (off + w ≤ 37)%nat → slice off w raw1 = slice off w raw2).
  { intros off w Hw.
    rewrite <- (slice_take 37 off w raw1), <- (slice_take 37 off w raw2) by exact Hw.
    rewrite Heq. reflexivity. }
  assert (Hsync : take 2 raw1 = take 2 raw2) by exact (Hs 0%nat 2%nat ltac:(lia)).
  unfold AquadoppDwVelocityDataParticle._build_parsed_values.
  destruct (decide (take 2 raw1 = VELOCITY_HEADER_DATA_SYNC_BYTES)) as [H1 | H1].
  - left. rewrite !velocity_regex_match by (assumption || congruence).
    split; [eauto |]. split; [eauto |].
    unfold AquadoppDwVelocityDataParticle._build_particle.
    rewrite (Hs 2%nat 6%nat), (Hs 8%nat 2%nat), (Hs 10%nat 2%nat),
      (Hs 12%nat 2%nat), (Hs 14%nat 2%nat), (Hs 16%nat 2%nat),
      (Hs 18%nat 2%nat), (Hs 20%nat 2%nat), (Hs 22%nat 1%nat),
      (Hs 23%nat 1%nat), (Hs 24%nat 2%nat), (Hs 26%nat 2%nat),
      (Hs 28%nat 2%nat), (Hs 30%nat 2%nat), (Hs 32%nat 2%nat),
      (Hs 34%nat 1%nat), (Hs 35%nat 1%nat), (Hs 36%nat 1%nat)
      by lia.
    reflexivity.
  - right. rewrite !velocity_regex_no_match by (right; congruence).
    repeat split; reflexivity.
Qed.

Lemma velocity_particle_ignores_tail_witness :
  AquadoppDwVelocityDataParticle._build_parsed_values
    (take 37 counting_frame ++ replicate 3 Byte.xff ++ [Byte.x2a; Byte.x2a])
  = AquadoppDwVelocityDataParticle._build_parsed_values counting_frame.
Proof.
  destruct (@velocity_particle_ignores_tail Nortek.primitives
              (take 37 counting_frame ++ replicate 3 Byte.xff
               ++ [Byte.x2a; Byte.x2a])
              counting_frame)
    as [(_ & _ & Hsame) | (Hnone & _)].
  - vm_compute. lia.
  - vm_compute. lia.
  - reflexivity.
  - exact Hsame.
  - vm_compute in Hnone. discriminate Hnone.
Defined.

(** X4: the extractor raises only in two ways: SampleException with its
    own message when the pattern does not match, or the exception that a
    conversion primitive raised on the clock bytes or on one of the twelve
    16-bit groups; it never fails on the one-byte fields. *)
Theorem velocity_particle_failure
  `{!NortekProtocolParameterDict} (raw : bytes) (e : exn) :
  AquadoppDwVelocityDataParticle._build_parsed_values raw = Raise e →
  (VELOCITY_DATA_REGEX raw = None
   ∧ e = SampleException AquadoppDwVelocityDataParticle.no_regex_match [raw])
  ∨ convert_time (slice 2 6 raw) = Raise e
  ∨ ∃ off, off ∈ word_offsets ∧ convert_word_to_int (slice off 2 raw) = Raise e.
Proof.
  unfold AquadoppDwVelocityDataParticle._build_parsed_values. intros Hp.
  destruct (velocity_regex_dec raw) as [[Hlen Hsync] | Hno].
  - right. rewrite velocity_regex_match in Hp by assumption.
    unfold AquadoppDwVelocityDataParticle._build_particle in Hp.
    repeat match type of Hp with
    | context [ord_group (slice ?o 1 raw)] =>
        let c := fresh "c" in
        let E := fresh "E" in
        destruct (lookup_lt_is_Some_2 raw o ltac:(lia)) as [c E];
        rewrite (slice_one_lookup o raw c E) in Hp; simpl in Hp
    end.
    destruct (convert_time (slice 2 6 raw)) as [ts | e0] eqn:Ets; simpl in Hp;
      [| left; congruence].
    right.
    repeat match type of Hp with
    | mbind _ (convert_word_to_int (slice ?o 2 raw)) = _ =>
        let E := fresh "E" in
        destruct (convert_word_to_int (slice o 2 raw)) eqn:E; simpl in Hp;
        [| exists o; split;
           [unfold word_offsets; set_solver | congruence]]
    end.
    discriminate Hp.
  - left. rewrite velocity_regex_no_match in Hp by assumption.
    split; [apply velocity_regex_no_match; assumption | congruence].
Qed.

Lemma velocity_particle_failure_witness :
  let e := SampleException AquadoppDwVelocityDataParticle.no_regex_match
             [take 39 counting_frame] in
  (VELOCITY_DATA_REGEX (take 39 counting_frame) = None ∧ e = e)
  ∨ Nortek.convert_time (slice 2 6 (take 39 counting_frame)) = Raise e
  ∨ ∃ off, off ∈ word_offsets
           ∧ Nortek.convert_word_to_int (slice off 2 (take 39 counting_frame))
             = Raise e.
Proof.
  exact (@velocity_particle_failure Nortek.primitives (take 39 counting_frame)
           (SampleException AquadoppDwVelocityDataParticle.no_regex_match
              [take 39 counting_frame])
           eq_refl).
Defined.

(** ** Sieve table, pattern and data key *)

(** X5: the sieve table and the pattern of the extractor agree: a string
    that starts with the sync bytes of a declared structure and has the
    declared length matches the pattern, those sync bytes are the data key of
    the protocol, and whatever matches the pattern starts with them. *)
Theorem sieve_structure_matches_pattern (s : sample_structure) (frame : bytes) :
  s ∈ VECTOR_SAMPLE_STRUCTURES →
  s.1 `prefix_of` frame →
  length frame = s.2 →
  is_Some (VELOCITY_DATA_REGEX frame)
  ∧ s.1 = Protocol._helper_get_data_key
  ∧ ∀ raw, is_Some (VELOCITY_DATA_REGEX raw) → s.1 `prefix_of` raw.
Proof.
  intros Hin [k Hk] Hlen.
  apply list_elem_of_singleton in Hin as ->. simpl in *.
  split; [| split; [reflexivity |]].
  - rewrite velocity_regex_match; [eauto | unfold VELOCITY_DATA_LEN in Hlen; lia |].
    rewrite Hk. reflexivity.
  - intros raw [gs Hgs].
    destruct (velocity_regex_dec raw) as [[_ Hsync] | Hno].
    + rewrite <- Hsync. apply prefix_take.
    + rewrite velocity_regex_no_match in Hgs by assumption. discriminate.
Qed.

Lemma sieve_structure_matches_pattern_witness :
  is_Some (VELOCITY_DATA_REGEX sample_frame).
Proof.
  apply (sieve_structure_matches_pattern
           (VELOCITY_HEADER_DATA_SYNC_BYTES, VELOCITY_DATA_LEN) sample_frame).
  - apply list_elem_of_here.
  - eexists. reflexivity.
  - reflexivity.
Defined.

(** ** The locators of the parameter dictionary *)

Lemma locate_Some off w block g :
  Regex.locate off w block = Some g →
  (off + w ≤ length block)%nat ∧ g = slice off w block.
Proof.
  intros H. destruct (decide (off + w ≤ length block)%nat) as [Hfit | Hshort].
  - rewrite locate_slice in H by assumption. split; congruence.
  - rewrite locate_short in H by lia. discriminate.
Qed.

(** A byte outside the field of a locator does not reach its group. *)
Lemma locate_insert_outside off w (block : list byte) i x :
  (i < off ∨ off + w ≤ i)%nat →
  Regex.locate off w (<[i := x]> block) = Regex.locate off w block.
Proof.
  intros Hout.
  destruct (decide (off + w ≤ length block)%nat) as [Hfit | Hshort].
  - rewrite !locate_slice by (rewrite ?length_insert; lia).
    f_equal. unfold slice. destruct Hout as [Hlt | Hge].
    + rewrite drop_insert_lt by exact Hlt. reflexivity.
    + rewrite drop_insert_ge by lia. rewrite take_insert_ge by lia. reflexivity.
  - rewrite !locate_short by (rewrite ?length_insert; lia). reflexivity.
Qed.

(** X6: the pattern of a parameter, [r'^.{off}(.{w}).*'] with DOTALL,
    matches exactly the blocks of at least [off + w] bytes; its group is the
    [w] bytes at offset [off]; and bytes appended to a block that matches
    do not change the group. *)
Theorem parameter_pattern_match (off w : nat) (block : bytes) :
  (is_Some (Regex.locate off w block) ↔ (off + w ≤ length block)%nat)
  ∧ (∀ g, Regex.locate off w block = Some g →
          g = slice off w block ∧ length g = w)
  ∧ (∀ more, (off + w ≤ length block)%nat →
             Regex.locate off w (block ++ more) = Regex.locate off w block).
Proof.
  split; [| split].
  - split.
    + intros [g Hg]. apply locate_Some in Hg as [Hfit _]. exact Hfit.
    + intros Hfit. rewrite locate_slice by exact Hfit. eauto.
  - intros g Hg. apply locate_Some in Hg as [Hfit ->].
    split; [reflexivity | apply slice_length, Hfit].
  - intros more Hfit.
    rewrite !locate_slice by (rewrite ?length_app; lia).
    f_equal. unfold slice.
    rewrite drop_app_le by lia. rewrite take_app_le by (rewrite length_drop; lia).
    reflexivity.
Qed.

Lemma locators_disjoint `{!NortekProtocolParameterDict} :
  Forall (fun x : string * (nat * nat) =>
            (x.2.1 + x.2.2 ≤ 458)%nat
            ∧ Forall (fun y : string * (nat * nat) =>
                        x.1 = y.1 ∨ disjoint_fields x.2 y.2) locators)
    locators.
Proof.
  unfold disjoint_fields.
  apply (bool_decide_unpack _). vm_compute. reflexivity.
Qed.

Lemma param_dict_fields `{!NortekProtocolParameterDict} d1 d2 :
  d1 ∈ Protocol._build_param_dict →
  d2 ∈ Protocol._build_param_dict →
  name d1 ≠ name d2 →
  ((pattern d1).1 + (pattern d1).2 ≤ 458)%nat
  ∧ disjoint_fields (pattern d1) (pattern d2).
Proof.
  intros H1 H2 Hne.
  pose proof locators_disjoint as HL.
  rewrite Forall_forall in HL.
  destruct (HL (name d1, pattern d1)) as [Hbound Hall].
  { unfold locators. apply (list_elem_of_fmap_2 (fun d => (name d, pattern d))), H1. }
  split; [exact Hbound |].
  rewrite Forall_forall in Hall.
  destruct (Hall (name d2, pattern d2)) as [Heq | Hdis].
  { unfold locators. apply (list_elem_of_fmap_2 (fun d => (name d, pattern d))), H2. }
  - contradiction.
  - exact Hdis.
Qed.

(** X7: the fields of two parameters of the dictionary never share a byte,
    and every field lies within the first 458 bytes of the configuration
    block. *)
Theorem parameter_fields_disjoint
  `{!NortekProtocolParameterDict} (d1 d2 : NortekParameterDictVal) :
  d1 ∈ Protocol._build_param_dict →
  d2 ∈ Protocol._build_param_dict →
  name d1 ≠ name d2 →
  ((pattern d1).1 + (pattern d1).2 ≤ (pattern d2).1
   ∨ (pattern d2).1 + (pattern d2).2 ≤ (pattern d1).1)%nat
  ∧ ((pattern d1).1 + (pattern d1).2 ≤ 458)%nat.
Proof.
  intros H1 H2 Hne.
  destruct (param_dict_fields d1 d2 H1 H2 Hne) as [Hbound Hdis].
  split; assumption.
Qed.

(** X8: rewriting a byte inside the field of one parameter leaves the group
    of every other parameter of the dictionary as it was: the parameters
    are decoded independently of one another. *)
Theorem parameter_groups_independent
  `{!NortekProtocolParameterDict} (d1 d2 : NortekParameterDictVal)
  (block : list byte) (i : nat) (x : byte) :
  d1 ∈ Protocol._build_param_dict →
  d2 ∈ Protocol._build_param_dict →
  name d1 ≠ name d2 →
  ((pattern d1).1 ≤ i < (pattern d1).1 + (pattern d1).2)%nat →
  Regex.locate (pattern d2).1 (pattern d2).2 (<[i := x]> block)
  = Regex.locate (pattern d2).1 (pattern d2).2 block.
Proof.
  intros H1 H2 Hne Hi.
  destruct (param_dict_fields d1 d2 H1 H2 Hne) as [_ Hdis].
  apply locate_insert_outside. unfold disjoint_fields in Hdis. lia.
Qed.

Lemma transmit_pulse_length_registered :
  transmit_pulse_length ∈ @Protocol._build_param_dict Nortek.primitives.
Proof. apply list_elem_of_here. Qed.

Lemma blanking_distance_registered :
  blanking_distance ∈ @Protocol._build_param_dict Nortek.primitives.
Proof. apply list_elem_of_further, list_elem_of_here. Qed.

Lemma parameter_fields_disjoint_witness :
  ((pattern transmit_pulse_length).1 + (pattern transmit_pulse_length).2
   ≤ (pattern blanking_distance).1
   ∨ (pattern blanking_distance).1 + (pattern blanking_distance).2
     ≤ (pattern transmit_pulse_length).1)%nat
  ∧ ((pattern transmit_pulse_length).1 + (pattern transmit_pulse_length).2
     ≤ 458)%nat.
Proof.
  apply (@parameter_fields_disjoint Nortek.primitives).
  - exact transmit_pulse_length_registered.
  - exact blanking_distance_registered.
  - discriminate.
Defined.

Lemma parameter_groups_independent_witness :
  Regex.locate 6 2 (<[4%nat := Byte.x2a]> sample_block)
  = Regex.locate 6 2 sample_block.
Proof.
  apply (@parameter_groups_independent Nortek.primitives
           transmit_pulse_length blanking_distance).
  - exact transmit_pulse_length_registered.
  - exact blanking_distance_registered.
  - discriminate.
  - simpl. lia.
Defined.

(** ** Book-keeping of the parameter dictionary *)

(** X9: no two descriptors share a name; every descriptor other than
    USER_2_SPARE is a startup parameter, open to direct access, with a
    default value; USER_2_SPARE is the one read-only descriptor; the
    descriptors declared READ_WRITE are BLANKING_DISTANCE, AVG_INTERVAL,
    COMPASS_UPDATE_RATE and MEASUREMENT_INTERVAL, every other one being
    IMMUTABLE or read-only; and every name that the translation loop of the
    set handler looks for is registered. *)
Theorem param_dict_bookkeeping `{!NortekProtocolParameterDict} :
  NoDup (name <$> Protocol._build_param_dict)
  ∧ (∀ d, d ∈ Protocol._build_param_dict →
       (name d ≠ Param.USER_2_SPARE →
        startup_param d = true ∧ direct_access d = true
        ∧ is_Some (default_value d))
       ∧ (visibility d = READ_ONLY ↔ name d = Param.USER_2_SPARE)
       ∧ (visibility d = READ_WRITE ↔ name d ∈ settable_names)
       ∧ (visibility d = IMMUTABLE
          ↔ name d ≠ Param.USER_2_SPARE ∧ name d ∉ settable_names))
  ∧ (∀ n, n ∈ translated_names → n ∈ name <$> Protocol._build_param_dict).
Proof.
  split; [exact param_dict_names_NoDup |]. split.
  - intros d Hin.
    assert (Hset : ∀ n, n ∈ settable_names
                        ↔ n = Param.BLANKING_DISTANCE ∨ n = Param.AVG_INTERVAL
                          ∨ n = Param.COMPASS_UPDATE_RATE
                          ∨ n = Param.MEASUREMENT_INTERVAL).
    { intros n. unfold settable_names. rewrite !elem_of_cons, elem_of_nil. tauto. }
    unfold Protocol._build_param_dict in Hin.
    repeat (apply elem_of_cons in Hin as [-> | Hin];
            [rewrite !Hset; simpl; repeat split;
             try (intros; discriminate); try (intros; reflexivity);
             try (intros; eauto; fail);
             try (intros Hx; exfalso; apply Hx; reflexivity; fail);
             try (intros Hx; intuition discriminate);
             try (intros Hx; exfalso; intuition discriminate);
             try congruence |]).
    apply elem_of_nil in Hin as [].
  - intros n Hn. unfold translated_names in Hn.
    repeat (apply elem_of_cons in Hn as [-> | Hn];
            [apply (bool_decide_unpack _); vm_compute; reflexivity |]).
    apply elem_of_nil in Hn as [].
Qed.

(** ** Round trips from the primitives *)

(** X10: if the word and double-word encoders of the instrument family
    give back every group that their decoders read, then so does every
    descriptor of the dictionary, CLOCK_DEPLOY apart: the round trip of the
    dictionary rests on the two pairs of primitives and on the hex codec
    alone. *)
Theorem round_trip_from_primitives
  `{!NortekProtocolParameterDict} (d : NortekParameterDictVal) :
  (∀ g z, length g = 2%nat → convert_word_to_int g = OK z →
          word_to_string (VInt z) = OK g) →
  (∀ g z, length g = 4%nat → convert_double_word_to_int g = OK z →
          double_word_to_string (VInt z) = OK g) →
  d ∈ Protocol._build_param_dict →
  name d ≠ Param.CLOCK_DEPLOY →
  encodes_back d.
Proof.
  intros Hword Hdword Hin Hname. unfold Protocol._build_param_dict in Hin.
  assert (Hw : ∀ name off type visibility display default units,
    encodes_back (Protocol.word_parameter name off type visibility display
                    default units)).
  { intros ? ? ? ? ? ? ? g v Hg Hv. simpl in *.
    destruct (convert_word_to_int g) as [z |] eqn:Ez; simpl in Hv;
      [| discriminate].
    injection Hv as <-. exact (Hword g z Hg Ez). }
  repeat (apply elem_of_cons in Hin as [-> | Hin];
          [first [ apply Hw
                 | exfalso; apply Hname; reflexivity
                 | idtac ] |]).
  - intros g v _ Hv. simpl in *. injection Hv as <-. apply decode_encode_hex.
  - intros g v Hg Hv. simpl in *.
    destruct (convert_double_word_to_int g) as [z |] eqn:Ez; simpl in Hv;
      [| discriminate].
    injection Hv as <-. exact (Hdword g z Hg Ez).
  - apply elem_of_nil in Hin as [].
Qed.

Lemma word_pair_encodes_back g z :
  length g = 2%nat → Nortek.convert_word_to_int g = OK z →
  Nortek.word_to_string (VInt z) = OK g.
Proof.
  intros Hg Hz. destruct g as [| hi [| lo [| ? ?]]]; simpl in Hg; try lia.
  simpl in Hz. injection Hz as <-. apply word_to_string_convert.
Qed.

Lemma double_word_pair_encodes_back g z :
  length g = 4%nat → Nortek.convert_double_word_to_int g = OK z →
  Nortek.double_word_to_string (VInt z) = OK g.
Proof.
  intros Hg Hz.
  destruct g as [| b3 [| b2 [| b1 [| b0 [| ? ?]]]]]; simpl in Hg; try lia.
  simpl in Hz. injection Hz as <-. apply double_word_to_string_convert.
Qed.

Lemma round_trip_from_primitives_witness :
  f_format blanking_distance (VInt 125) = OK [Byte.x00; Byte.x7d].
Proof.
  apply (@round_trip_from_primitives Nortek.primitives blanking_distance
           word_pair_encodes_back double_word_pair_encodes_back
           blanking_distance_registered ltac:(discriminate)
           [Byte.x00; Byte.x7d] (VInt 125) eq_refl eq_refl).
Defined.

(** ** The hex codec of USER_2_SPARE *)

Lemma ord_inj a b : ord a = ord b → a = b.
Proof.
  unfold ord. intros H. apply N2Z.inj in H.
  apply (f_equal Byte.of_N) in H. rewrite !Byte.of_to_N in H. congruence.
Qed.

Lemma chr_OK i : 0 <= i < 256 → ∃ c, chr i = OK c ∧ ord c = i.
Proof.
  intros Hi. unfold chr. rewrite decide_True by exact Hi.
  destruct (Byte.of_N (Z.to_N i)) as [c |] eqn:E.
  - exists c. split; [reflexivity |].
    apply Byte.to_of_N in E. unfold ord. rewrite E. lia.
  - apply Byte.of_N_None_iff in E. lia.
Qed.

Lemma hex_digit_ord n :
  0 <= n < 16 → ord (hex_digit n) = if decide (n < 10) then 48 + n else 87 + n.
Proof.
  intros H.
  assert (n = 0 ∨ n = 1 ∨ n = 2 ∨ n = 3 ∨ n = 4 ∨ n = 5 ∨ n = 6 ∨ n = 7
          ∨ n = 8 ∨ n = 9 ∨ n = 10 ∨ n = 11 ∨ n = 12 ∨ n = 13 ∨ n = 14
          ∨ n = 15) as Hn by lia.
  repeat destruct Hn as [-> | Hn]; try subst n; reflexivity.
Qed.

Lemma unhex_digit_Some c a :
  unhex_digit c = Some a →
  0 <= a < 16
  ∧ ((lower_hex c ∧ ord (hex_digit a) = ord c)
     ∨ (upper_hex_letter c ∧ ord (hex_digit a) = ord c + 32)).
Proof.
  unfold unhex_digit, lower_hex, upper_hex_letter. cbv zeta.
  repeat case_decide; intros [= <-]; (split; [lia |]);
    rewrite hex_digit_ord by lia;
    [left | left | right]; (split; [lia |]); case_decide; lia.
Qed.

Lemma unhex_digit_None c :
  unhex_digit c = None → ¬ lower_hex c ∧ ¬ upper_hex_letter c.
Proof.
  unfold unhex_digit, lower_hex, upper_hex_letter. cbv zeta.
  repeat case_decide; intros [=]. lia.
Qed.

Lemma bytes_pair_ind (P : bytes → Prop) :
  P [] → (∀ c, P [c]) → (∀ h l s, P s → P (h :: l :: s)) → ∀ s, P s.
Proof.
  intros H0 H1 H2 s.
  assert (P s ∧ ∀ c, P (c :: s)) as [H _]; [| exact H].
  induction s as [| a s [IH1 IH2]]; split; auto.
Qed.

(** What [decode_hex] does with the first two characters. *)
Lemma decode_hex_cons h l s :
  decode_hex (h :: l :: s)
  = match unhex_digit h, unhex_digit l with
    | Some a, Some b =>
        c ← chr (16 * a + b); rest ← decode_hex s; OK (c :: rest)
    | _, _ => Raise TypeError
    end.
Proof. reflexivity. Qed.

Lemma encode_hex_length s : length (encode_hex s) = (2 * length s)%nat.
Proof. induction s as [| c s IH]; simpl; [reflexivity | rewrite IH; lia]. Qed.

Lemma encode_hex_lower s : Forall lower_hex (encode_hex s).
Proof.
  induction s as [| c s IH]; simpl; [constructor |].
  pose proof (ord_range c) as Hc.
  assert (H16 : 0 <= ord c / 16 < 16)
    by (split; [apply Z.div_pos | apply Z.div_lt_upper_bound]; lia).
  assert (Hm : 0 <= ord c mod 16 < 16) by (apply Z.mod_pos_bound; lia).
  apply Forall_cons_2; [| apply Forall_cons_2; [| exact IH]];
    unfold lower_hex; rewrite hex_digit_ord by assumption; case_decide; lia.
Qed.

(** The strings that [decode_hex] accepts, its only exception, and the
    length of what it returns. *)
Lemma decode_hex_spec s :
  (is_OK (decode_hex s) = true
   ↔ Nat.Even (length s) ∧ Forall (fun c => is_Some (unhex_digit c)) s)
  ∧ (∀ e, decode_hex s = Raise e → e = TypeError)
  ∧ (∀ b, decode_hex s = OK b → length s = (2 * length b)%nat).
Proof.
  induction s as [| c | h l s (IHok & IHerr & IHlen)] using bytes_pair_ind.
  - split; [| split].
    + split; [intros _; split; [exists 0%nat; reflexivity | constructor] | reflexivity].
    + discriminate.
    + intros b [= <-]. reflexivity.
  - split; [| split].
    + split; [discriminate |]. intros [[k Hk] _]. simpl in Hk. lia.
    + intros e [= <-]. reflexivity.
    + discriminate.
  - rewrite decode_hex_cons.
    destruct (unhex_digit h) as [a |] eqn:Eh.
    2:{ split; [| split]; [| intros e [= <-]; reflexivity | discriminate].
        split; [discriminate |]. intros [_ Hall].
        apply Forall_cons in Hall as [[? Hh] _]. congruence. }
    destruct (unhex_digit l) as [b |] eqn:El.
    2:{ split; [| split]; [| intros e [= <-]; reflexivity | discriminate].
        split; [discriminate |]. intros [_ Hall].
        apply Forall_cons in Hall as [_ Hall].
        apply Forall_cons in Hall as [[? Hl] _]. congruence. }
    apply unhex_digit_Some in Eh as Ha. apply unhex_digit_Some in El as Hb.
    destruct (chr_OK (16 * a + b) ltac:(lia)) as (c & -> & _). simpl.
    assert (Heven : Nat.Even (length (h :: l :: s)) ↔ Nat.Even (length s)).
    { simpl. split; intros [k Hk]; [exists (k - 1)%nat | exists (S k)]; lia. }
    destruct (decode_hex s) as [rest | e0]; simpl.
    + split; [| split]; [| discriminate |].
      * split; [intros _ | reflexivity].
        destruct (proj1 IHok eq_refl) as [He Hall].
        split; [apply Heven, He | repeat constructor; eauto].
      * intros b0 [= <-]. simpl. rewrite (IHlen rest eq_refl). lia.
    + split; [| split]; [| | discriminate].
      * split; [discriminate |]. intros [He Hall].
        apply Forall_cons in Hall as [_ Hall].
        apply Forall_cons in Hall as [_ Hall].
        apply IHok. split; [apply Heven, He | exact Hall].
      * intros e [= <-]. exact (IHerr e0 eq_refl).
Qed.

(** A string that decodes comes back from the decoded bytes exactly when it
    has no upper-case digit. *)
Lemma encode_decode_hex s b :
  decode_hex s = OK b → (encode_hex b = s ↔ Forall (fun c => ¬ upper_hex_letter c) s).
Proof.
  revert b. induction s as [| c | h l s IH] using bytes_pair_ind; intros b.
  - intros [= <-]. split; [constructor | reflexivity].
  - discriminate.
  - rewrite decode_hex_cons.
    destruct (unhex_digit h) as [x |] eqn:Eh; [| discriminate].
    destruct (unhex_digit l) as [y |] eqn:El; [| discriminate].
    apply unhex_digit_Some in Eh as [Hx Hh]. apply unhex_digit_Some in El as [Hy Hl].
    destruct (chr_OK (16 * x + y) ltac:(lia)) as (c & -> & Hc). simpl.
    destruct (decode_hex s) as [rest |] eqn:Erest; simpl; [| discriminate].
    intros [= <-]. specialize (IH rest eq_refl). cbn [encode_hex].
    assert (ord c / 16 = x) as -> by (symmetry; apply Z.div_unique with y; lia).
    assert (ord c mod 16 = y) as -> by (symmetry; apply Z.mod_unique with x; lia).
    unfold lower_hex, upper_hex_letter in *. split.
    + intros [= E1 E2 E3]. apply (f_equal ord) in E1, E2.
      repeat constructor; [lia | lia | apply IH, E3].
    + intros Hall.
      apply Forall_cons in Hall as [N1 Hall]. apply Forall_cons in Hall as [N2 Hall].
      f_equal; [apply ord_inj; lia |]. f_equal; [apply ord_inj; lia |].
      apply IH, Hall.
Qed.

Lemma user_2_spare_registered :
  user_2_spare ∈ @Protocol._build_param_dict Nortek.primitives
  ∧ name user_2_spare = Param.USER_2_SPARE.
Proof.
  split; [| reflexivity].
  apply (list_elem_of_lookup_2 _ 23%nat). reflexivity.
Qed.

(** The decoder and the encoder of USER_2_SPARE are the hex codec. *)
Lemma user_2_spare_codec `{!NortekProtocolParameterDict} d :
  d ∈ Protocol._build_param_dict →
  name d = Param.USER_2_SPARE →
  (∀ g, f_getval d g = OK (VStr (encode_hex g)))
  ∧ (∀ s, f_format d (VStr s) = decode_hex s).
Proof.
  intros Hin Hname. unfold Protocol._build_param_dict in Hin.
  repeat (apply elem_of_cons in Hin as [-> | Hin];
          [first [ discriminate Hname | split; reflexivity ] |]).
  apply elem_of_nil in Hin as [].
Qed.

(** X11: whatever bytes stand in its field, the value of USER_2_SPARE is a
    string of two lower-case hexadecimal digits per byte, and the encoder
    gives the bytes back from it. *)
Theorem user_2_spare_value
  `{!NortekProtocolParameterDict} (d : NortekParameterDictVal)
  (g : bytes) (v : value) :
  d ∈ Protocol._build_param_dict →
  name d = Param.USER_2_SPARE →
  f_getval d g = OK v →
  ∃ h, v = VStr h
       ∧ length h = (2 * length g)%nat
       ∧ Forall lower_hex h
       ∧ f_format d v = OK g.
Proof.
  intros Hin Hname Hv.
  destruct (user_2_spare_codec d Hin Hname) as [Hdec Henc].
  rewrite Hdec in Hv. injection Hv as <-.
  exists (encode_hex g). split; [reflexivity |].
  split; [apply encode_hex_length |]. split; [apply encode_hex_lower |].
  rewrite Henc. apply decode_encode_hex.
Qed.

Lemma user_2_spare_value_witness :
  ∃ h, length h = 4%nat
       ∧ f_getval user_2_spare [Byte.xab; Byte.x12] = OK (VStr h)
       ∧ f_format user_2_spare (VStr h) = OK [Byte.xab; Byte.x12].
Proof.
  destruct user_2_spare_registered as [Hin Hname].
  destruct (@user_2_spare_value Nortek.primitives user_2_spare
              [Byte.xab; Byte.x12] _ Hin Hname eq_refl)
    as (h & Hv & Hlen & _ & Henc).
  exists h. split; [exact Hlen |]. rewrite <- Hv. split; [reflexivity | exact Henc].
Defined.

(** X12: the encoder of USER_2_SPARE accepts exactly the strings of even
    length made of hexadecimal digits of either case; every other string
    raises TypeError; and an accepted string gives one byte for every two
    characters. *)
Theorem user_2_spare_encoder
  `{!NortekProtocolParameterDict} (d : NortekParameterDictVal) (s : bytes) :
  d ∈ Protocol._build_param_dict →
  name d = Param.USER_2_SPARE →
  (is_OK (f_format d (VStr s)) = true
   ↔ Nat.Even (length s) ∧ Forall (fun c => lower_hex c ∨ upper_hex_letter c) s)
  ∧ (∀ e, f_format d (VStr s) = Raise e → e = TypeError)
  ∧ (∀ wire, f_format d (VStr s) = OK wire → length s = (2 * length wire)%nat).
Proof.
  intros Hin Hname.
  destruct (user_2_spare_codec d Hin Hname) as [_ Henc]. rewrite Henc.
  destruct (decode_hex_spec s) as (Hok & Herr & Hlen).
  split; [| split; assumption].
  rewrite Hok. apply and_iff_compat_l. rewrite !Forall_forall.
  split; intros Hall c Hc; specialize (Hall c Hc).
  - destruct Hall as [a Ha]. apply unhex_digit_Some in Ha as [_ [[? _] | [? _]]]; auto.
  - destruct (unhex_digit c) eqn:E; [eauto |].
    apply unhex_digit_None in E as [? ?]. tauto.
Qed.

Lemma user_2_spare_encoder_witness :
  f_format user_2_spare (VStr [Byte.x41; Byte.x42; Byte.x31]) = Raise TypeError
  ∧ is_OK (f_format user_2_spare (VStr upper_hex)) = true.
Proof.
  destruct user_2_spare_registered as [Hin Hname]. split.
  - destruct (@user_2_spare_encoder Nortek.primitives user_2_spare
                [Byte.x41; Byte.x42; Byte.x31] Hin Hname) as (_ & Herr & _).
    destruct (f_format user_2_spare (VStr [Byte.x41; Byte.x42; Byte.x31]))
      as [wire | e] eqn:E; [vm_compute in E; discriminate E |].
    rewrite (Herr e eq_refl). reflexivity.
  - apply (@user_2_spare_encoder Nortek.primitives user_2_spare upper_hex
             Hin Hname).
    split; [exists 2%nat; reflexivity |].
    unfold upper_hex, lower_hex, upper_hex_letter.
    repeat constructor; vm_compute; intuition congruence.
Defined.

(** X13: a string that the encoder of USER_2_SPARE accepts is read back
    from its wire bytes exactly when it has no upper-case digit. *)
Theorem user_2_spare_round_trip
  `{!NortekProtocolParameterDict} (d : NortekParameterDictVal)
  (s wire : bytes) :
  d ∈ Protocol._build_param_dict →
  name d = Param.USER_2_SPARE →
  f_format d (VStr s) = OK wire →
  (f_getval d wire = OK (VStr s) ↔ Forall (fun c => ¬ upper_hex_letter c) s).
Proof.
  intros Hin Hname Hwire.
  destruct (user_2_spare_codec d Hin Hname) as [Hdec Henc].
  rewrite Henc in Hwire. rewrite Hdec.
  rewrite <- (encode_decode_hex s wire Hwire).
  split; [intros [= E]; exact E | intros ->; reflexivity].
Qed.

Lemma user_2_spare_round_trip_witness :
  f_getval user_2_spare [Byte.xab; Byte.x12]
  = OK (VStr [Byte.x61; Byte.x62; Byte.x31; Byte.x32]).
Proof.
  destruct user_2_spare_registered as [Hin Hname].
  apply (@user_2_spare_round_trip Nortek.primitives user_2_spare
           [Byte.x61; Byte.x62; Byte.x31; Byte.x32] [Byte.xab; Byte.x12]
           Hin Hname eq_refl).
  unfold upper_hex_letter. repeat constructor; vm_compute; intuition congruence.
Defined.

(** ** The translation loop of the set handler *)

Lemma translate_item_log st item :
  ∃ notes,
    debug_log (Protocol.translate_item st item) = debug_log st ++ notes
    ∧ length notes = length (filter (fun n => n ∈ translated_names) [item.1])
    ∧ Forall (translation_note item.1) notes.
Proof.
  unfold Protocol.translate_item, translation_note, translated_names. cbv zeta.
  repeat case_decide;
    try (match goal with E : item.1 = _ |- _ => rewrite E end;
         eexists [_]; split; [reflexivity |]; split;
         [rewrite filter_cons_True by set_solver; reflexivity
         | apply Forall_singleton; split; [set_solver | auto] ]).
  exists []. split; [symmetry; apply app_nil_r |]. split; [| constructor].
  rewrite filter_cons_False; [reflexivity |].
  intros Hin. repeat (apply elem_of_cons in Hin as [E | Hin]; [contradiction |]).
  apply elem_of_nil in Hin as [].
Qed.

Lemma translation_loop_log items st :
  ∃ notes,
    debug_log (foldl Protocol.translate_item st items) = debug_log st ++ notes
    ∧ length notes = length (filter (fun n => n ∈ translated_names) items.*1)
    ∧ Forall (fun line => ∃ n, n ∈ items.*1 ∧ translation_note n line) notes.
Proof.
  revert st. induction items as [| item items IH]; intros st; cbn [foldl].
  - exists []. split; [symmetry; apply app_nil_r |]. split; [reflexivity | constructor].
  - destruct (translate_item_log st item) as (n1 & Hlog1 & Hlen1 & Hall1).
    destruct (IH (Protocol.translate_item st item)) as (n2 & Hlog2 & Hlen2 & Hall2).
    exists (n1 ++ n2). split; [rewrite Hlog2, Hlog1, (assoc_L (++)); reflexivity |].
    split.
    + rewrite length_app, Hlen1, Hlen2, fmap_cons.
      rewrite (filter_cons _ item.1 items.*1), (filter_cons _ item.1 []).
      case_decide; reflexivity.
    + apply Forall_app. split.
      * eapply Forall_impl; [exact Hall1 |]. intros line Hline.
        exists item.1. split; [apply list_elem_of_here | exact Hline].
      * eapply Forall_impl; [exact Hall2 |]. intros line (n & Hn & Hline).
        exists n. split; [apply list_elem_of_further, Hn | exact Hline].
Qed.

(** X14: before it calls [_set_params], the set handler only writes to the
    debug log: its entry line, then one line for each key of the dict that
    is one of the six names of the translation loop, each naming such a key.
    No value of the dict is translated, and the shadow values, the wire, the
    connection state and the lines already logged stay as they were. *)
Theorem translation_loop_only_logs
  (params : gmap string value) (st : protocol_state) :
  ∃ entry notes,
    debug_log (at_set_params params st) = debug_log st ++ entry :: notes
    ∧ length notes
      = length (filter (fun n => n ∈ translated_names) (map_to_list params).*1)
    ∧ Forall (fun line => ∃ n, is_Some (params !! n) ∧ translation_note n line)
        notes
    ∧ shadow (at_set_params params st) = shadow st
    ∧ wire (at_set_params params st) = wire st
    ∧ conn_state (at_set_params params st) = conn_state st.
Proof.
  unfold at_set_params.
  destruct (translation_loop_log (map_to_list params)
              (Protocol.log_debug "%% IN CHILD _handler_command_set" st))
    as (notes & Hlog & Hlen & Hall).
  destruct (translation_loop_frame (map_to_list params)
              (Protocol.log_debug "%% IN CHILD _handler_command_set" st))
    as (Hc & Hs & Hw).
  eexists _, notes.
  split; [rewrite Hlog; simpl; rewrite <- (assoc_L (++)); reflexivity |].
  split; [exact Hlen |]. split; [| auto].
  eapply Forall_impl; [exact Hall |]. intros line (n & Hn & Hline).
  exists n. split; [| exact Hline].
  apply list_elem_of_fmap in Hn as ([k v] & -> & Hkv).
  apply elem_of_map_to_list in Hkv. simpl. eauto.
Qed.

(** ** The set handler: what it raises *)

(** X15: the set handler raises in three ways only: without a positional
    argument and with a first argument that is not a dict it raises its own
    InstrumentParameterException, having done nothing but log its entry
    line; with a dict it raises exactly what [_set_params] raised, and
    leaves the state that [_set_params] left. *)
Theorem handler_command_set_failures
  `{!NortekInstrumentProtocol} (args : list pyobj) (st st' : protocol_state)
  (e : exn) :
  Protocol._handler_command_set args st = (st', Raise e) →
  (args = []
   ∧ e = InstrumentParameterException Protocol.requires_dict
   ∧ ∃ entry, st' = Protocol.log_debug entry st)
  ∨ (∃ v others,
       args = PVal v :: others
       ∧ e = InstrumentParameterException Protocol.not_a_dict
       ∧ ∃ entry, st' = Protocol.log_debug entry st)
  ∨ (∃ params others,
       args = PDict params :: others
       ∧ _set_params params (default (PVal (VBool false)) (others !! 0%nat))
           (at_set_params params st) = (st', Raise e)).
Proof.
  destruct args as [| [params | v] others].
  - simpl. intros [= <- <-]. left. eauto.
  - rewrite handler_dict. simpl.
    destruct (_set_params _ _ _) as [st1 [[] | e1]] eqn:E; simpl;
      [discriminate |].
    intros [= <- <-]. right. right. eauto.
  - unfold Protocol._handler_command_set. simpl.
    destruct others; intros [= <- <-]; right; left; eauto 10.
Qed.

Lemma handler_command_set_failures_witness :
  ∃ st',
    @Protocol._handler_command_set (Nortek.protocol (fun _ => true))
      [PVal (VInt 60); PVal (VBool true)] initial_state
    = (st', Raise (InstrumentParameterException Protocol.not_a_dict)).
Proof.
  destruct (@Protocol._handler_command_set (Nortek.protocol (fun _ => true))
              [PVal (VInt 60); PVal (VBool true)] initial_state)
    as [st' [r | e]] eqn:E; [vm_compute in E; discriminate E |].
  exists st'.
  destruct (@handler_command_set_failures (Nortek.protocol (fun _ => true))
              _ _ _ _ E)
    as [(Hargs & _) | [(v & others & _ & -> & _) | (params & others & Hargs & _)]].
  - discriminate Hargs.
  - reflexivity.
  - discriminate Hargs.
Defined.

(** ** The kind of a decoded value *)

(** X16: what a descriptor decodes is an integer, for every descriptor
    other than USER_2_SPARE (a string) and CLOCK_DEPLOY (whatever the date
    conversion returns).  The declared type does not tell it: a descriptor
    declared INT decodes an integer, but so do ANALOG_INPUT_ADDR, SW_VERSION
    and WAVE_MEASUREMENT_MODE, which are declared STRING. *)
Theorem decoded_value_kind
  `{!NortekProtocolParameterDict} (d : NortekParameterDictVal)
  (g : bytes) (v : value) :
  d ∈ Protocol._build_param_dict →
  f_getval d g = OK v →
  (name d = Param.USER_2_SPARE → ∃ h, v = VStr h)
  ∧ (name d ≠ Param.USER_2_SPARE → name d ≠ Param.CLOCK_DEPLOY →
     ∃ z, v = VInt z)
  ∧ (type d = INT → ∃ z, v = VInt z)
  ∧ (name d ∈ string_typed_words → type d = STRING ∧ ∃ z, v = VInt z).
Proof.
  intros Hin Hv.
  assert (Hmem : ∀ n, n ∈ string_typed_words
                      ↔ n = Param.ANALOG_INPUT_ADDR ∨ n = Param.SW_VERSION
                        ∨ n = Param.WAVE_MEASUREMENT_MODE).
  { intros n. unfold string_typed_words. rewrite !elem_of_cons, elem_of_nil. tauto. }
  unfold Protocol._build_param_dict in Hin.
  repeat (apply elem_of_cons in Hin as [-> | Hin];
          [rewrite Hmem; simpl in *;
           try (destruct (convert_word_to_int g); simpl in Hv;
                [| discriminate Hv]);
           try (destruct (convert_double_word_to_int g); simpl in Hv;
                [| discriminate Hv]);
           try (injection Hv as <-);
           repeat split; intros; eauto; try discriminate; try congruence;
           try (exfalso; intuition discriminate) |]).
  apply elem_of_nil in Hin as [].
Qed.

Lemma decoded_value_kind_witness :
  ∃ z, f_getval blanking_distance [Byte.x00; Byte.x7d] = OK (VInt z).
Proof.
  destruct (f_getval blanking_distance [Byte.x00; Byte.x7d]) as [v | e] eqn:E;
    [| vm_compute in E; discriminate E].
  destruct (@decoded_value_kind Nortek.primitives blanking_distance
              [Byte.x00; Byte.x7d] v blanking_distance_registered E)
    as (_ & _ & Hint & _).
  destruct (Hint eq_refl) as [z ->]. exists z. reflexivity.
Defined.

(** ** The one-byte fields and the pressure *)

(** X17: in a string that the extractor accepts, the status and the three
    amplitudes are integers from 0 to 255; and when the word conversion
    returns 16-bit values, the pressure is a 24-bit value whose upper byte is
    the byte at offset 22 and whose lower 16 bits are the conversion of the
    bytes at offsets 24 and 25. *)
Theorem velocity_particle_byte_fields
  `{!NortekProtocolParameterDict} (raw : bytes) (p : particle) :
  (∀ w z, convert_word_to_int w = OK z → 0 <= z < 65536) →
  AquadoppDwVelocityDataParticle._build_parsed_values raw = OK p →
  ∃ st pr a1 a2 a3 b22,
    (particle_value AquadoppDwVelocityDataParticleKey.STATUS p = Some (VInt st)
     ∧ particle_value AquadoppDwVelocityDataParticleKey.PRESSURE p
       = Some (VInt pr)
     ∧ particle_value AquadoppDwVelocityDataParticleKey.AMPLITUDE_BEAM1 p
       = Some (VInt a1)
     ∧ particle_value AquadoppDwVelocityDataParticleKey.AMPLITUDE_BEAM2 p
       = Some (VInt a2)
     ∧ particle_value AquadoppDwVelocityDataParticleKey.AMPLITUDE_BEAM3 p
       = Some (VInt a3))
    ∧ (0 <= st < 256 ∧ 0 <= a1 < 256 ∧ 0 <= a2 < 256 ∧ 0 <= a3 < 256)
    ∧ 0 <= pr < 16777216
    ∧ raw !! 22%nat = Some b22
    ∧ pr / 65536 = ord b22
    ∧ convert_word_to_int (slice 24 2 raw) = OK (pr mod 65536).
Proof.
  intros Hrange Hp.
  apply build_parsed_values_explicit in Hp as [_ Hp].
  apply build_particle_explicit in Hp
    as (ts & e & an & bv & ss & hd & pt & rl & msb & st & lsw & tmp & v1 & v2
        & v3 & am1 & am2 & am3
        & _ & (Hmsb & Hst & Hlsw & _) & (Ham1 & Ham2 & Ham3) & ->).
  apply ord_group_OK in Hmsb as (c22 & E22 & ->).
  apply ord_group_OK in Hst as (c23 & _ & ->).
  apply ord_group_OK in Ham1 as (c34 & _ & ->).
  apply ord_group_OK in Ham2 as (c35 & _ & ->).
  apply ord_group_OK in Ham3 as (c36 & _ & ->).
  pose proof (ord_range c22). pose proof (ord_range c23).
  pose proof (ord_range c34). pose proof (ord_range c35).
  pose proof (ord_range c36). pose proof (Hrange _ _ Hlsw) as Hl.
  exists (ord c23), (ord c22 * 65536 + lsw), (ord c34), (ord c35), (ord c36), c22.
  split; [repeat split; reflexivity |].
  split; [lia |]. split; [lia |].
  split; [apply slice_one, E22 |].
  assert ((ord c22 * 65536 + lsw) / 65536 = ord c22) as Hdiv
    by (symmetry; apply Z.div_unique with lsw; lia).
  assert ((ord c22 * 65536 + lsw) mod 65536 = lsw) as Hmod
    by (symmetry; apply Z.mod_unique with (ord c22); lia).
  rewrite Hdiv, Hmod. split; [reflexivity | exact Hlsw].
Qed.

Lemma word_conversion_range w z :
  Nortek.convert_word_to_int w = OK z → 0 <= z < 65536.
Proof.
  destruct w as [| hi [| lo [| ? ?]]]; simpl; try discriminate.
  intros [= <-]. pose proof (ord_range hi). pose proof (ord_range lo). lia.
Qed.

Lemma velocity_particle_byte_fields_witness :
  ∃ p pr,
    AquadoppDwVelocityDataParticle._build_parsed_values counting_frame = OK p
    ∧ particle_value AquadoppDwVelocityDataParticleKey.PRESSURE p
      = Some (VInt pr)
    ∧ pr / 65536 = 22.
Proof.
  destruct (AquadoppDwVelocityDataParticle._build_parsed_values counting_frame)
    as [p | e] eqn:E; [| vm_compute in E; discriminate E].
  destruct (@velocity_particle_byte_fields Nortek.primitives counting_frame p
              word_conversion_range E)
    as (st & pr & a1 & a2 & a3 & b22 & (_ & Hpr & _) & _ & _ & H22 & Hdiv & _).
  exists p, pr. split; [reflexivity |]. split; [exact Hpr |].
  rewrite Hdiv. vm_compute in H22. injection H22 as <-. reflexivity.
Defined.

(** ** Default values and field widths *)

(** X18: every default value of the dictionary can be written to its field:
    when the word and double-word encoders give two and four bytes for the
    values of 16 and 32 bits, the encoder of a descriptor turns its default
    value into exactly as many bytes as its locator reads. *)
Theorem defaults_fit_fields
  `{!NortekProtocolParameterDict} (d : NortekParameterDictVal) (v : value) :
  (∀ z, 0 <= z < 65536 →
        ∃ g, word_to_string (VInt z) = OK g ∧ length g = 2%nat) →
  (∀ z, 0 <= z < 4294967296 →
        ∃ g, double_word_to_string (VInt z) = OK g ∧ length g = 4%nat) →
  d ∈ Protocol._build_param_dict →
  default_value d = Some v →
  ∃ g, f_format d v = OK g ∧ length g = (pattern d).2.
Proof.
  intros Hword Hdword Hin Hv. unfold Protocol._build_param_dict in Hin.
  repeat (apply elem_of_cons in Hin as [-> | Hin];
          [simpl in *; first
             [ discriminate Hv
             | injection Hv as <-;
               first [ apply Hword; lia
                     | apply Hdword; lia
                     | eexists; split; reflexivity ] ] |]).
  apply elem_of_nil in Hin as [].
Qed.

Lemma word_to_string_width z :
  0 <= z < 65536 →
  ∃ g, Nortek.word_to_string (VInt z) = OK g ∧ length g = 2%nat.
Proof.
  intros Hz. unfold Nortek.word_to_string. rewrite decide_True by exact Hz.
  assert (0 <= z / 256 < 256)
    by (split; [apply Z.div_pos | apply Z.div_lt_upper_bound]; lia).
  assert (0 <= z mod 256 < 256) by (apply Z.mod_pos_bound; lia).
  destruct (chr_OK (z / 256)) as (hi & -> & _); [assumption |].
  destruct (chr_OK (z mod 256)) as (lo & -> & _); [assumption |].
  simpl. eauto.
Qed.

Lemma double_word_to_string_width z :
  0 <= z < 4294967296 →
  ∃ g, Nortek.double_word_to_string (VInt z) = OK g ∧ length g = 4%nat.
Proof.
  intros Hz. unfold Nortek.double_word_to_string.
  rewrite decide_True by exact Hz.
  assert (0 <= z / 16777216 < 256)
    by (split; [apply Z.div_pos | apply Z.div_lt_upper_bound]; lia).
  assert (0 <= z / 65536 mod 256 < 256) by (apply Z.mod_pos_bound; lia).
  assert (0 <= z / 256 mod 256 < 256) by (apply Z.mod_pos_bound; lia).
  assert (0 <= z mod 256 < 256) by (apply Z.mod_pos_bound; lia).
  destruct (chr_OK (z / 16777216)) as (b3 & -> & _); [assumption |].
  destruct (chr_OK (z / 65536 mod 256)) as (b2 & -> & _); [assumption |].
  destruct (chr_OK (z / 256 mod 256)) as (b1 & -> & _); [assumption |].
  destruct (chr_OK (z mod 256)) as (b0 & -> & _); [assumption |].
  simpl. eauto.
Qed.

Lemma defaults_fit_fields_witness :
  ∃ g, f_format blanking_distance (VInt 49) = OK g ∧ length g = 2%nat.
Proof.
  exact (@defaults_fit_fields Nortek.primitives blanking_distance (VInt 49)
           word_to_string_width double_word_to_string_width
           blanking_distance_registered eq_refl).
Defined.
